(** * Falcon utility functions ([falcon/util.py])

    A shallow embedding of the module's functions, followed by the
    properties established for them.  The Python 3 reading of the module is
    embedded ([six.PY3] holds): text is [str], the branches guarded by
    [not six.PY3] are not taken.  The standard-library routines the module
    delegates to ([str], [strftime], [strptime], [urllib.parse.quote],
    [urllib.parse.unquote_plus], [warnings.warn_explicit]) are embedded
    after their CPython definitions, in the C locale. *)

From Stdlib Require Import String Ascii List ZArith NArith Lia Bool DecimalString.
Import ListNotations.

Open Scope string_scope.

(** ** Text helpers *)

(** [sep.join(l)] *)
Fixpoint join (sep : string) (l : list string) : string :=
  match l with
  | [] => ""
  | [x] => x
  | x :: rest => x ++ sep ++ join sep rest
  end.

(** [s[:-1]]: everything but the last character. *)
Fixpoint drop_last (s : string) : string :=
  match s with
  | EmptyString => EmptyString
  | String _ EmptyString => EmptyString
  | String c rest => String c (drop_last rest)
  end.

(** ** Query parameter values *)

(** The values a query mapping holds: scalars, and lists of scalars. *)
Inductive scalar : Type :=
| PyNone
| PyBool (b : bool)
| PyInt (n : Z)
| PyStr (s : string).

Inductive value : Type :=
| Scalar (x : scalar)
| PyList (l : list scalar).

(** [str(n)] for an [int]: decimal digits, ['-'] first when negative. *)
Definition str_int (n : Z) : string := NilZero.string_of_int (Z.to_int n).

(** [str(x)] *)
Definition str (x : scalar) : string :=
  match x with
  | PyNone => "None"
  | PyBool true => "True"
  | PyBool false => "False"
  | PyInt n => str_int n
  | PyStr s => s
  end.

(** ** [to_query_str] *)

(** The value transform inlined in the loop of [to_query_str]:
    [v is True], [v is False], [isinstance(v, list)], else [str(v)]. *)
Definition transform (v : value) : string :=
  match v with
  | Scalar (PyBool true) => "true"
  | Scalar (PyBool false) => "false"
  | PyList l => join "," (map str l)
  | Scalar x => str x
  end.

(** One turn of the loop: [query_str += k + '=' + v + '&']. *)
Definition query_step (query_str : string) (kv : string * value) : string :=
  let (k, v) := kv in query_str ++ k ++ "=" ++ transform v ++ "&".

(** A mapping is given by its items in iteration order. *)
Definition to_query_str (params : list (string * value)) : string :=
  match params with
  | [] => ""
  | _ => drop_last (fold_left query_step params "?")
  end.

(** The pair [key=value] the specification describes. *)
Definition pair_text (kv : string * value) : string :=
  fst kv ++ "=" ++ transform (snd kv).

(** The text the loop has added after the mapping [l]. *)
Fixpoint pairs_text (l : list (string * value)) : string :=
  match l with
  | [] => ""
  | kv :: rest => pair_text kv ++ "&" ++ pairs_text rest
  end.


(** ** Results of fallible calls *)

(** The exceptions the embedded calls raise. *)
Inductive exn : Type :=
| ValueError
| UnicodeEncodeError
| UnicodeDecodeError
| WarningRaised (message : string).

Inductive result (A : Type) : Type :=
| Ok (a : A)
| Raise (e : exn).

Arguments Ok {A} a.
Arguments Raise {A} e.

Definition bind {A B : Type} (m : result A) (k : A -> result B) : result B :=
  match m with
  | Ok a => k a
  | Raise e => Raise e
  end.

Notation "x <- m ;; k" := (bind m (fun x => k))
  (at level 61, m at next level, right associativity).

Definition of_option {A : Type} (e : exn) (o : option A) : result A :=
  match o with
  | Some a => Ok a
  | None => Raise e
  end.

(** ** Characters *)

Open Scope N_scope.

Definition code (c : ascii) : N := N_of_ascii c.

(** [\d] on a character below U+0100. *)
Definition is_digit (c : ascii) : bool := (48 <=? code c) && (code c <=? 57).

(** [\s] on a character below U+0100: tab to carriage return, the four
    information separators, space, next line and no-break space. *)
Definition is_space (c : ascii) : bool :=
  let n := code c in
  ((9 <=? n) && (n <=? 13)) || ((28 <=? n) && (n <=? 32))
  || (n =? 133) || (n =? 160).

(** Case folding of [re.IGNORECASE] on a character below U+0100 compared
    with an ASCII pattern character. *)
Definition lower (c : ascii) : ascii :=
  let n := code c in
  if (65 <=? n) && (n <=? 90) then ascii_of_N (n + 32) else c.

Close Scope N_scope.

Fixpoint lower_str (s : string) : string :=
  match s with
  | EmptyString => EmptyString
  | String c rest => String (lower c) (lower_str rest)
  end.

(** ** Calendar arithmetic of [datetime] *)

Open Scope Z_scope.

Record datetime : Type := mk_datetime {
  year : Z;
  month : Z;
  day : Z;
  hour : Z;
  minute : Z;
  second : Z;
  microsecond : Z
}.

Definition MINYEAR : Z := 1.
Definition MAXYEAR : Z := 9999.

Definition is_leap (y : Z) : bool :=
  (y mod 4 =? 0) && (negb (y mod 100 =? 0) || (y mod 400 =? 0)).

Definition DAYS_IN_MONTH : list Z :=
  [-1; 31; 28; 31; 30; 31; 30; 31; 31; 30; 31; 30; 31].


Definition days_in_month (y m : Z) : Z :=
  if (m =? 2) && is_leap y then 29 else nth (Z.to_nat m) DAYS_IN_MONTH 0.




(** [_check_date_fields] *)
Definition check_date_fields (y m d : Z) : bool :=
  (MINYEAR <=? y) && (y <=? MAXYEAR) && (1 <=? m) && (m <=? 12)
  && (1 <=? d) && (d <=? days_in_month y m).

(** [_check_time_fields] *)
Definition check_time_fields (h mi s us : Z) : bool :=
  (0 <=? h) && (h <=? 23) && (0 <=? mi) && (mi <=? 59)
  && (0 <=? s) && (s <=? 59) && (0 <=? us) && (us <=? 999999).

(** The constructor [datetime(year, month, day, hour, minute, second,
    microsecond)]. *)
Definition datetime_new (y m d h mi s us : Z) : result datetime :=
  if check_date_fields y m d && check_time_fields h mi s us
  then Ok (mk_datetime y m d h mi s us)
  else Raise ValueError.

(** The values the constructor returns. *)
Definition valid_datetime (dt : datetime) : Prop :=
  check_date_fields (year dt) (month dt) (day dt)
  && check_time_fields (hour dt) (minute dt) (second dt) (microsecond dt)
  = true.



(** ** Locale tables (C locale) *)

Definition a_weekday : list string :=
  ["mon"; "tue"; "wed"; "thu"; "fri"; "sat"; "sun"]%string.

Definition a_month : list string :=
  [""; "jan"; "feb"; "mar"; "apr"; "may"; "jun";
   "jul"; "aug"; "sep"; "oct"; "nov"; "dec"]%string.



(** The zone names [strptime] knows when the local zone is UTC. *)
Definition timezone_names : list string := ["utc"; "gmt"]%string.

(** ** [strftime] *)





(** ** [dt_to_http] *)


(** ** Regular expressions of [_strptime] *)

(** The fragment of [re] patterns [TimeRE] builds for the module's format.
    Patterns are compiled with [re.IGNORECASE]. *)
Inductive regex : Type :=
| Lit (c : ascii)
| CharSet (p : ascii -> bool)
| PlusSet (p : ascii -> bool)
| Seq (r1 r2 : regex)
| Alt (r1 r2 : regex)
| Empty
| Never
| Group (name : ascii) (r : regex).

(** The named groups a match has filled, in the order they closed. *)
Definition groups : Type := list (ascii * string).

(** Greedy [p+]: the remainders after one or more characters of [p],
    the longest run first. *)
Fixpoint plus_set (p : ascii -> bool) (s : string) : list (string * string) :=
  match s with
  | EmptyString => []
  | String c rest =>
      if p c
      then (map (fun m => (String c (fst m), snd m)) (plus_set p rest)
            ++ [(String c EmptyString, rest)])%list
      else []
  end.

(** All the ways [r] matches a prefix of [s], in the order the
    backtracking matcher tries them: the text matched, the groups and the
    remainder. *)
Fixpoint rmatch (r : regex) (s : string) : list (string * groups * string) :=
  match r with
  | Lit c =>
      match s with
      | String c' rest =>
          if Ascii.eqb (lower c') (lower c)
          then [(String c' EmptyString, [], rest)] else []
      | EmptyString => []
      end
  | CharSet p =>
      match s with
      | String c' rest =>
          if p c' then [(String c' EmptyString, [], rest)] else []
      | EmptyString => []
      end
  | PlusSet p => map (fun m => (fst m, [], snd m)) (plus_set p s)
  | Seq r1 r2 =>
      flat_map
        (fun m1 : string * groups * string =>
           let '(t1, g1, s1) := m1 in
           map (fun m2 : string * groups * string =>
                  let '(t2, g2, s2) := m2 in ((t1 ++ t2)%string, (g1 ++ g2)%list, s2))
               (rmatch r2 s1))
        (rmatch r1 s)
  | Alt r1 r2 => (rmatch r1 s ++ rmatch r2 s)%list
  | Empty => [(EmptyString, [], s)]
  | Never => []
  | Group name r0 =>
      map (fun m : string * groups * string =>
             let '(t, g, s') := m in (t, (g ++ [(name, t)])%list, s'))
          (rmatch r0 s)
  end.

(** [re.escape(word)] as a pattern. *)
Fixpoint word (w : string) : regex :=
  match w with
  | EmptyString => Empty
  | String c EmptyString => Lit c
  | String c rest => Seq (Lit c) (word rest)
  end.

Fixpoint alternation (rs : list regex) : regex :=
  match rs with
  | [] => Never
  | [r] => r
  | r :: rest => Alt r (alternation rest)
  end.

(** [__seqToRE(to_convert, directive)].  The names of each table used here
    have one length, so the sort by decreasing length keeps their order. *)
Definition seqToRE (to_convert : list string) (directive : ascii) : regex :=
  Group directive (alternation (map word to_convert)).

Definition in_range (lo hi : ascii) (c : ascii) : bool :=
  (code lo <=? code c)%N && (code c <=? code hi)%N.

Definition is_char (x : ascii) (c : ascii) : bool := Ascii.eqb c x.

(** The entries of [TimeRE] for the directives the module's format uses. *)
Definition TimeRE (directive : ascii) : option regex :=
  match directive with
  | "d"%char =>
      (* (?P<d>3[0-1]|[1-2]\d|0[1-9]|[1-9]| [1-9]) *)
      Some (Group "d" (alternation
        [Seq (Lit "3") (CharSet (in_range "0" "1"));
         Seq (CharSet (in_range "1" "2")) (CharSet is_digit);
         Seq (Lit "0") (CharSet (in_range "1" "9"));
         CharSet (in_range "1" "9");
         Seq (Lit " ") (CharSet (in_range "1" "9"))]))
  | "H"%char =>
      (* (?P<H>2[0-3]|[0-1]\d|\d) *)
      Some (Group "H" (alternation
        [Seq (Lit "2") (CharSet (in_range "0" "3"));
         Seq (CharSet (in_range "0" "1")) (CharSet is_digit);
         CharSet is_digit]))
  | "M"%char =>
      (* (?P<M>[0-5]\d|\d) *)
      Some (Group "M" (alternation
        [Seq (CharSet (in_range "0" "5")) (CharSet is_digit);
         CharSet is_digit]))
  | "S"%char =>
      (* (?P<S>6[0-1]|[0-5]\d|\d) *)
      Some (Group "S" (alternation
        [Seq (Lit "6") (CharSet (in_range "0" "1"));
         Seq (CharSet (in_range "0" "5")) (CharSet is_digit);
         CharSet is_digit]))
  | "Y"%char =>
      (* (?P<Y>\d\d\d\d) *)
      Some (Group "Y"
        (Seq (CharSet is_digit) (Seq (CharSet is_digit)
           (Seq (CharSet is_digit) (CharSet is_digit)))))
  | "a"%char => Some (seqToRE a_weekday "a")
  | "b"%char => Some (seqToRE (tl a_month) "b")
  | "Z"%char => Some (seqToRE timezone_names "Z")
  | _ => None
  end.

(** Skip the rest of a run of white space in the format. *)
Fixpoint skip_spaces (s : string) : string :=
  match s with
  | String c rest => if is_space c then skip_spaces rest else s
  | EmptyString => EmptyString
  end.

(** [TimeRE.pattern(format)]: a run of white space becomes [\s+], a
    directive its entry, any other character itself.  [fuel] bounds the
    length of the format. *)
Fixpoint pattern_aux (fuel : nat) (format : string) : option regex :=
  match fuel with
  | O => None
  | S fuel' =>
      match format with
      | EmptyString => Some Empty
      | String "%" (String d rest) =>
          match TimeRE d, pattern_aux fuel' rest with
          | Some r, Some k => Some (Seq r k)
          | _, _ => None
          end
      | String c rest =>
          if is_space c
          then match pattern_aux fuel' (skip_spaces rest) with
               | Some k => Some (Seq (PlusSet is_space) k)
               | None => None
               end
          else match pattern_aux fuel' rest with
               | Some k => Some (Seq (Lit c) k)
               | None => None
               end
      end
  end.

Definition pattern (format : string) : option regex :=
  pattern_aux (S (String.length format)) format.

(** ** [strptime] *)

(** [s.rstrip()] *)
Fixpoint rstrip (s : string) : string :=
  match s with
  | EmptyString => EmptyString
  | String c rest =>
      match rstrip rest with
      | EmptyString => if is_space c then EmptyString else String c EmptyString
      | r => String c r
      end
  end.

(** [s.strip()] *)
Definition strip (s : string) : string := rstrip (skip_spaces s).

Definition digit_value (c : ascii) : Z := Z.of_N (code c) - 48.

Fixpoint digits_value (acc : Z) (s : string) : option Z :=
  match s with
  | EmptyString => Some acc
  | String c rest =>
      if is_digit c then digits_value (10 * acc + digit_value c) rest else None
  end.

(** [int(text)] for a text of decimal digits within white space, the only
    texts the groups of a date pattern hold. *)
Definition py_int (text : string) : result Z :=
  match strip text with
  | EmptyString => Raise ValueError
  | t => of_option ValueError (digits_value 0 t)
  end.

(** [l.index(x)] *)
Fixpoint index (x : string) (l : list string) : option Z :=
  match l with
  | [] => None
  | y :: rest =>
      if String.eqb x y then Some 0
      else match index x rest with
           | Some i => Some (i + 1)
           | None => None
           end
  end.

(** The locals of [_strptime] that reach the [datetime] it builds. *)
Record fields : Type := mk_fields {
  f_year : option Z;
  f_month : Z;
  f_day : Z;
  f_hour : Z;
  f_minute : Z;
  f_second : Z;
  f_weekday : option Z
}.

Definition initial_fields : fields := mk_fields None 1 1 0 0 0 None.

(** One turn of the loop over [found_dict].  The zone a [Z] group names
    only sets [tz] and [tzname], which [_strptime_datetime] drops. *)
Definition set_field (f : fields) (kv : ascii * string) : result fields :=
  let (group_key, text) := kv in
  match group_key with
  | "Y"%char =>
      v <- py_int text ;;
      Ok (mk_fields (Some v) (f_month f) (f_day f) (f_hour f) (f_minute f)
            (f_second f) (f_weekday f))
  | "b"%char =>
      v <- of_option ValueError (index (lower_str text) a_month) ;;
      Ok (mk_fields (f_year f) v (f_day f) (f_hour f) (f_minute f)
            (f_second f) (f_weekday f))
  | "d"%char =>
      v <- py_int text ;;
      Ok (mk_fields (f_year f) (f_month f) v (f_hour f) (f_minute f)
            (f_second f) (f_weekday f))
  | "H"%char =>
      v <- py_int text ;;
      Ok (mk_fields (f_year f) (f_month f) (f_day f) v (f_minute f)
            (f_second f) (f_weekday f))
  | "M"%char =>
      v <- py_int text ;;
      Ok (mk_fields (f_year f) (f_month f) (f_day f) (f_hour f) v
            (f_second f) (f_weekday f))
  | "S"%char =>
      v <- py_int text ;;
      Ok (mk_fields (f_year f) (f_month f) (f_day f) (f_hour f) (f_minute f)
            v (f_weekday f))
  | "a"%char =>
      v <- of_option ValueError (index (lower_str text) a_weekday) ;;
      Ok (mk_fields (f_year f) (f_month f) (f_day f) (f_hour f) (f_minute f)
            (f_second f) (Some v))
  | _ => Ok f
  end.

Fixpoint set_fields (f : fields) (found : groups) : result fields :=
  match found with
  | [] => Ok f
  | kv :: rest => f' <- set_field f kv ;; set_fields f' rest
  end.

(** [_strptime_datetime(datetime, data_string, format)]: the first match of
    the pattern has to reach the end of the text; the groups give the
    fields; an absent year is 1900 (1904 while the date is checked when the
    day is 29 February); the date is checked and the [datetime] built. *)
Definition strptime (data_string format : string) : result datetime :=
  match pattern format with
  | None => Raise ValueError
  | Some format_regex =>
      match rmatch format_regex data_string with
      | [] => Raise ValueError
      | (_, found, EmptyString) :: _ =>
          f <- set_fields initial_fields found ;;
          let leap_year_fix :=
            match f_year f with
            | None => (f_month f =? 2) && (f_day f =? 29)
            | Some _ => false
            end in
          let y :=
            match f_year f with
            | Some y => y
            | None => if leap_year_fix then 1904 else 1900
            end in
          if check_date_fields y (f_month f) (f_day f)
          then datetime_new (if leap_year_fix then 1900 else y)
                 (f_month f) (f_day f) (f_hour f) (f_minute f) (f_second f) 0
          else Raise ValueError
      | (_, _, String _ _) :: _ => Raise ValueError
      end
  end.

(** ** [http_date_to_dt] *)

Definition http_date_to_dt (http_date : string) : result datetime :=
  strptime http_date "%a, %d %b %Y %H:%M:%S %Z".

(** ** Text and bytes of the URL functions *)

Open Scope N_scope.

(** A [str] that may hold any character is the list of its code points. *)
Definition text : Type := list N.

(** A [bytes] object. *)
Definition bytes : Type := list ascii.

(** The [str] of characters below U+0100 a literal denotes. *)
Fixpoint text_of (s : string) : text :=
  match s with
  | EmptyString => []
  | String c rest => code c :: text_of rest
  end.

Definition byte_of (n : N) : ascii := ascii_of_N n.

(** The error handlers of the codecs. *)
Inductive error_policy : Type :=
| Strict
| Replace.

(** [ch.encode('utf-8', 'strict')] for one character: surrogates cannot be
    encoded. *)
Definition utf8_encode_char (cp : N) : result bytes :=
  if cp <? 128 then Ok [byte_of cp]
  else if cp <? 2048 then
    Ok [byte_of (192 + cp / 64); byte_of (128 + cp mod 64)]
  else if (55296 <=? cp) && (cp <=? 57343) then Raise UnicodeEncodeError
  else if cp <? 65536 then
    Ok [byte_of (224 + cp / 4096); byte_of (128 + (cp / 64) mod 64);
        byte_of (128 + cp mod 64)]
  else if cp <? 1114112 then
    Ok [byte_of (240 + cp / 262144); byte_of (128 + (cp / 4096) mod 64);
        byte_of (128 + (cp / 64) mod 64); byte_of (128 + cp mod 64)]
  else Raise UnicodeEncodeError.

(** [string.encode('utf-8', 'strict')] *)
Fixpoint utf8_encode (string : text) : result bytes :=
  match string with
  | [] => Ok []
  | cp :: rest =>
      b <- utf8_encode_char cp ;;
      bs <- utf8_encode rest ;;
      Ok (b ++ bs)%list
  end.

Definition is_continuation (b : ascii) : bool :=
  (128 <=? code b) && (code b <? 192).

Definition REPLACEMENT_CHARACTER : N := 65533.

(** What the decoder does with an ill-formed sequence: raise, or put
    U+FFFD for it and go on with [k]. *)
Definition decode_error (errors : error_policy) (k : result text)
  : result text :=
  match errors with
  | Strict => Raise UnicodeDecodeError
  | Replace => r <- k ;; Ok (REPLACEMENT_CHARACTER :: r)
  end.

(** The second byte a lead byte of a three or four byte sequence admits. *)
Definition second_ok (lead b : ascii) : bool :=
  is_continuation b
  && negb (if code lead <? 240
           then (if code b <? 160 then code lead =? 224 else code lead =? 237)
           else (if code b <? 144 then code lead =? 240 else code lead =? 244)).

(** [bs.decode('utf-8', errors)], after CPython's decoder: an invalid start
    byte is an error of one byte, an invalid continuation an error of the
    bytes before it, a truncated sequence at the end an error of all that
    is left. *)
Fixpoint utf8_decode (errors : error_policy) (bs : bytes) : result text :=
  match bs with
  | [] => Ok []
  | b0 :: r0 =>
      let c0 := code b0 in
      if c0 <? 128 then r <- utf8_decode errors r0 ;; Ok (c0 :: r)
      else if c0 <? 194 then decode_error errors (utf8_decode errors r0)
      else if c0 <? 224 then
        match r0 with
        | [] => decode_error errors (Ok [])
        | b1 :: r1 =>
            if is_continuation b1
            then r <- utf8_decode errors r1 ;;
                 Ok ((c0 - 192) * 64 + (code b1 - 128) :: r)
            else decode_error errors (utf8_decode errors r0)
        end
      else if c0 <? 240 then
        match r0 with
        | [] => decode_error errors (Ok [])
        | b1 :: r1 =>
            if negb (second_ok b0 b1)
            then decode_error errors (utf8_decode errors r0)
            else
              match r1 with
              | [] => decode_error errors (Ok [])
              | b2 :: r2 =>
                  if is_continuation b2
                  then r <- utf8_decode errors r2 ;;
                       Ok ((c0 - 224) * 4096 + (code b1 - 128) * 64
                           + (code b2 - 128) :: r)
                  else decode_error errors (utf8_decode errors r1)
              end
        end
      else if c0 <? 245 then
        match r0 with
        | [] => decode_error errors (Ok [])
        | b1 :: r1 =>
            if negb (second_ok b0 b1)
            then decode_error errors (utf8_decode errors r0)
            else
              match r1 with
              | [] => decode_error errors (Ok [])
              | b2 :: r2 =>
                  if negb (is_continuation b2)
                  then decode_error errors (utf8_decode errors r1)
                  else
                    match r2 with
                    | [] => decode_error errors (Ok [])
                    | b3 :: r3 =>
                        if is_continuation b3
                        then r <- utf8_decode errors r3 ;;
                             Ok ((c0 - 240) * 262144 + (code b1 - 128) * 4096
                                 + (code b2 - 128) * 64 + (code b3 - 128) :: r)
                        else decode_error errors (utf8_decode errors r2)
                    end
              end
        end
      else decode_error errors (utf8_decode errors r0)
  end.

(** ** [urllib.parse.quote] *)

Definition ALWAYS_SAFE : string :=
  "ABCDEFGHIJKLMNOPQRSTUVWXYZabcdefghijklmnopqrstuvwxyz0123456789_.-~".

Fixpoint mem (c : ascii) (s : string) : bool :=
  match s with
  | EmptyString => false
  | String x rest => Ascii.eqb c x || mem c rest
  end.

(** One digit of [format(b, '02X')]. *)
Definition hex_digit (n : N) : N :=
  if n <? 10 then 48 + n else 55 + n.

(** [_Quoter(safe)[b]]: [chr(b)] for a safe byte, else ['%XX']. *)
Definition quoter (safe : string) (b : ascii) : text :=
  if mem b ALWAYS_SAFE || mem b safe then [code b]
  else [37; hex_digit (code b / 16); hex_digit (code b mod 16)].

(** [quote_from_bytes(bs, safe)], for [safe] in ASCII. *)
Definition quote_from_bytes (bs : bytes) (safe : string) : text :=
  flat_map (quoter safe) bs.

(** [quote(string, safe)] for a [str]: encoded as UTF-8, strictly. *)
Definition quote (string : text) (safe : String.string) : result text :=
  bs <- utf8_encode string ;;
  Ok (quote_from_bytes bs safe).

(** ** [percent_escape] *)

Definition percent_escape (url : text) : result text :=
  quote url "/:,=?&-_".

(** ** [urllib.parse.unquote_plus] *)

(** The value of a character of [_hexdig], ['0123456789ABCDEFabcdef']. *)
Definition hex_value (c : ascii) : option N :=
  let n := code c in
  if (48 <=? n) && (n <=? 57) then Some (n - 48)
  else if (65 <=? n) && (n <=? 70) then Some (n - 55)
  else if (97 <=? n) && (n <=? 102) then Some (n - 87)
  else None.

(** [unquote_to_bytes] on ASCII text: a ['%'] followed by two characters
    of [_hexdig] is the byte they spell, anything else stays. *)
Fixpoint unquote_to_bytes (s : bytes) : bytes :=
  match s with
  | [] => []
  | c :: rest =>
      if Ascii.eqb c "%" then
        match rest with
        | h :: l :: rest' =>
            match hex_value h, hex_value l with
            | Some x, Some y => byte_of (16 * x + y) :: unquote_to_bytes rest'
            | _, _ => c :: unquote_to_bytes rest
            end
        | _ => c :: unquote_to_bytes rest
        end
      else c :: unquote_to_bytes rest
  end.

(** The decoded text of one run of ASCII characters, held reversed. *)
Definition unquote_run (errors : error_policy) (run : bytes) : result text :=
  match run with
  | [] => Ok []
  | _ => utf8_decode errors (unquote_to_bytes (rev run))
  end.

(** The parts of [unquote]: each maximal run of ASCII characters is
    unquoted to bytes and decoded, the characters between go through. *)
Fixpoint unquote_parts (errors : error_policy) (run : bytes) (s : text)
  : result text :=
  match s with
  | [] => unquote_run errors run
  | cp :: rest =>
      if cp <? 128 then unquote_parts errors (byte_of cp :: run) rest
      else
        d <- unquote_run errors run ;;
        r <- unquote_parts errors [] rest ;;
        Ok (d ++ cp :: r)%list
  end.

(** [unquote(string, 'utf-8', errors)] for a [str]. *)
Definition unquote (string : text) (errors : error_policy) : result text :=
  if negb (existsb (N.eqb 37) string) then Ok string
  else unquote_parts errors [] string.

(** [string.replace('+', ' ')] *)
Definition replace_plus (string : text) : text :=
  map (fun cp => if cp =? 43 then 32 else cp) string.

(** [unquote_plus(string, 'utf-8', errors)] *)
Definition unquote_plus (string : text) (errors : error_policy) : result text :=
  unquote (replace_plus string) errors.

(** ** [percent_unescape] *)

(** [errors] is left at its default, ['replace']. *)
Definition percent_unescape (nstr : text) : result text :=
  unquote_plus nstr Replace.

Close Scope N_scope.

(** ** The [warnings] machinery *)

Open Scope string_scope.

(** The warning categories: the built-in ones and the module's own
    [DeprecatedWarning]. *)
Inductive category : Type :=
| Warning
| UserWarning
| DeprecationWarning
| PendingDeprecationWarning
| SyntaxWarning
| RuntimeWarning
| FutureWarning
| ImportWarning
| UnicodeWarning
| BytesWarning
| ResourceWarning
| EncodingWarning
| DeprecatedWarning.

Definition builtin_categories : list category :=
  [Warning; UserWarning; DeprecationWarning; PendingDeprecationWarning;
   SyntaxWarning; RuntimeWarning; FutureWarning; ImportWarning;
   UnicodeWarning; BytesWarning; ResourceWarning; EncodingWarning].

Definition category_eqb (c d : category) : bool :=
  match c, d with
  | Warning, Warning | UserWarning, UserWarning
  | DeprecationWarning, DeprecationWarning
  | PendingDeprecationWarning, PendingDeprecationWarning
  | SyntaxWarning, SyntaxWarning | RuntimeWarning, RuntimeWarning
  | FutureWarning, FutureWarning | ImportWarning, ImportWarning
  | UnicodeWarning, UnicodeWarning | BytesWarning, BytesWarning
  | ResourceWarning, ResourceWarning | EncodingWarning, EncodingWarning
  | DeprecatedWarning, DeprecatedWarning => true
  | _, _ => false
  end.

(** The base class: [class DeprecatedWarning(UserWarning)]; the built-in
    categories derive from [Warning]. *)
Definition base (c : category) : option category :=
  match c with
  | Warning => None
  | DeprecatedWarning => Some UserWarning
  | _ => Some Warning
  end.

(** [issubclass(c, d)]; the hierarchy is three classes deep. *)
Definition issubclass (c d : category) : bool :=
  category_eqb c d
  || match base c with
     | None => false
     | Some b =>
         category_eqb b d
         || match base b with
            | None => false
            | Some b' => category_eqb b' d
            end
     end.

Inductive action : Type :=
| ActError
| ActIgnore
| ActAlways
| ActDefault
| ActModule
| ActOnce.

(** An entry of [warnings.filters]: [(action, message, category, module,
    lineno)]; an absent pattern matches everything. *)
Record filter : Type := mk_filter {
  flt_action : action;
  flt_message : option (string -> bool);
  flt_category : category;
  flt_module : option (string -> bool);
  flt_lineno : Z
}.

(** The filters a Python 3 interpreter starts with. *)
Definition default_filters : list filter :=
  [mk_filter ActDefault None DeprecationWarning (Some (String.eqb "__main__")) 0;
   mk_filter ActIgnore None DeprecationWarning None 0;
   mk_filter ActIgnore None PendingDeprecationWarning None 0;
   mk_filter ActIgnore None ImportWarning None 0;
   mk_filter ActIgnore None ResourceWarning None 0].

(** A warning handed to [showwarning]. *)
Record shown_warning : Type := mk_shown {
  w_message : string;
  w_category : category;
  w_filename : string;
  w_lineno : Z
}.

(** The state of the [warnings] module. *)
Record warn_state : Type := mk_warn_state {
  filters : list filter;
  defaultaction : action;
  onceregistry : list (string * category);
  shown : list shown_warning
}.

Definition matches (p : option (string -> bool)) (s : string) : bool :=
  match p with
  | None => true
  | Some f => f s
  end.

(** The search of the filters in [warn_explicit]. *)
Fixpoint find_action (fs : list filter) (dflt : action)
    (text : string) (cat : category) (module : string) (lineno : Z) : action :=
  match fs with
  | [] => dflt
  | item :: rest =>
      if matches (flt_message item) text
         && issubclass cat (flt_category item)
         && matches (flt_module item) module
         && ((flt_lineno item =? 0)%Z || (lineno =? flt_lineno item)%Z)
      then flt_action item
      else find_action rest dflt text cat module lineno
  end.

Fixpoint ends_with_py (s : string) : bool :=
  match s with
  | EmptyString => false
  | String c rest =>
      String.eqb (lower_str s) ".py" || ends_with_py rest
  end.

(** [module = filename or "<unknown>"], less a final [.py]. *)
Definition module_of (filename : string) : string :=
  let module :=
    match filename with EmptyString => "<unknown>" | _ => filename end in
  if ends_with_py module
  then substring 0 (String.length module - 3) module
  else module.

Definition once_seen (key : string * category)
    (reg : list (string * category)) : bool :=
  existsb (fun k => String.eqb (fst k) (fst key)
                    && category_eqb (snd k) (snd key)) reg.

(** [warnings.warn_explicit(message, category, filename, lineno)] with the
    registry left out: the per-module registry is a fresh dictionary on
    each call, so only [onceregistry] remembers anything. *)
Definition warn_explicit (message : string) (cat : category)
    (filename : string) (lineno : Z) (st : warn_state)
  : result unit * warn_state :=
  let show :=
    mk_warn_state (filters st) (defaultaction st) (onceregistry st)
      (shown st ++ [mk_shown message cat filename lineno]) in
  match find_action (filters st) (defaultaction st) message cat
          (module_of filename) lineno with
  | ActIgnore => (Ok tt, st)
  | ActError => (Raise (WarningRaised message), st)
  | ActOnce =>
      if once_seen (message, cat) (onceregistry st) then (Ok tt, st)
      else (Ok tt,
            mk_warn_state (filters st) (defaultaction st)
              ((message, cat) :: onceregistry st)
              (shown st ++ [mk_shown message cat filename lineno]))
  | ActAlways | ActDefault | ActModule => (Ok tt, show)
  end.

(** ** [deprecated] *)

Section Deprecated.

(** The arguments, the result and the state a function works on.  A
    function does not look at the state of [warnings]. *)
Variables Args Ret World : Type.

Record function : Type := mk_function {
  __name__ : string;
  call : Args -> World -> result Ret * World
}.

(** The frame of a caller: [inspect.getfile(frame.f_code)] and
    [frame.f_lineno]. *)
Record frame : Type := mk_frame {
  f_code_file : string;
  f_lineno : Z
}.

(** The callable [functools.wraps(func)] makes of [wrapper]: it has the
    name of [func]; a call runs in the frame under [f_back]. *)
Record wrapped : Type := mk_wrapped {
  wrapped_name : string;
  wrapped_call :
    frame -> Args -> World * warn_state -> result Ret * (World * warn_state)
}.

Definition deprecation_message (func : function) (instructions : string)
  : string :=
  "Call to deprecated function " ++ __name__ func ++ "(...). "
  ++ instructions.

Definition wrapper (instructions : string) (func : function)
    (f_back : frame) (args : Args) (st : World * warn_state)
  : result Ret * (World * warn_state) :=
  let message := deprecation_message func instructions in
  match warn_explicit message DeprecatedWarning
          (f_code_file f_back) (f_lineno f_back) (snd st) with
  | (Raise e, ws) => (Raise e, (fst st, ws))
  | (Ok _, ws) =>
      let (r, world) := call func args (fst st) in (r, (world, ws))
  end.

Definition decorator (instructions : string) (func : function) : wrapped :=
  mk_wrapped (__name__ func) (wrapper instructions func).

Definition deprecated (instructions : string) : function -> wrapped :=
  decorator instructions.

End Deprecated.

Arguments __name__ {Args Ret World} f.
Arguments call {Args Ret World} f.
Arguments mk_function {Args Ret World} _ _.
Arguments wrapped_name {Args Ret World} w.
Arguments wrapped_call {Args Ret World} w.
Arguments deprecated {Args Ret World} instructions func.
Arguments deprecation_message {Args Ret World} func instructions.

(** ** The escaping the specification describes *)

Open Scope N_scope.

(** Letters and digits, and the marks [-], [.], [_], [~]: what URL
    escaping never encodes. *)
Definition unreserved (n : N) : bool :=
  ((65 <=? n) && (n <=? 90)) || ((97 <=? n) && (n <=? 122))
  || ((48 <=? n) && (n <=? 57))
  || (n =? 45) || (n =? 46) || (n =? 95) || (n =? 126).

(** The safe set of [percent_escape]: [/ : , = ? & - _]. *)
Definition in_safe_set (n : N) : bool :=
  (n =? 47) || (n =? 58) || (n =? 44) || (n =? 61) || (n =? 63)
  || (n =? 38) || (n =? 45) || (n =? 95).

(** ['%XX'] for the byte [b], in upper case. *)
Definition percent_hex (b : ascii) : text :=
  [37; hex_digit (code b / 16); hex_digit (code b mod 16)].

Definition described_escape (b : ascii) : text :=
  if unreserved (code b) || in_safe_set (code b) then [code b]
  else percent_hex b.

Close Scope N_scope.

(** ** The lossy decoding the specification describes *)

(** Code points that are characters: up to U+10FFFF, no surrogate. *)
Definition is_scalar (cp : N) : bool :=
  ((cp <? 55296) || (57343 <? cp))%N && (cp <? 1114112)%N.

(** Decoding [bs] with ['replace'] returns a text: the text ['strict']
    returns when [bs] is well formed, and otherwise a text that holds
    U+FFFD where ['strict'] raises. *)
Definition lossy (bs : bytes) : Prop :=
  exists t, utf8_decode Replace bs = Ok t
    /\ (utf8_decode Strict bs = Ok t
        \/ (utf8_decode Strict bs = Raise UnicodeDecodeError
            /\ In REPLACEMENT_CHARACTER t)).

(** ** The HTTP date format the specification describes *)






(** ** The pattern of the HTTP date format *)

Definition directive_re (d : ascii) : regex :=
  match TimeRE d with
  | Some r => r
  | None => Never
  end.

(** What [pattern] makes of ['%a, %d %b %Y %H:%M:%S %Z']. *)
Definition http_date_regex : regex :=
  Seq (directive_re "a") (Seq (Lit ",") (Seq (PlusSet is_space)
  (Seq (directive_re "d") (Seq (PlusSet is_space)
  (Seq (directive_re "b") (Seq (PlusSet is_space)
  (Seq (directive_re "Y") (Seq (PlusSet is_space)
  (Seq (directive_re "H") (Seq (Lit ":")
  (Seq (directive_re "M") (Seq (Lit ":")
  (Seq (directive_re "S") (Seq (PlusSet is_space)
  (Seq (directive_re "Z") Empty))))))))))))))).

(** The match the backtracking matcher finds first. *)
Definition first_match (r : regex) (s t : string) (g : groups) (rest : string)
  : Prop :=
  exists others, rmatch r s = (t, g, rest) :: others.

(** ** The texts [http_date_to_dt] accepts *)

Fixpoint all_chars (p : ascii -> bool) (s : string) : bool :=
  match s with
  | EmptyString => true
  | String c rest => p c && all_chars p rest
  end.

(** A run of white space, not empty. *)
Definition is_spaces (w : string) : bool :=
  negb (String.eqb w "") && all_chars is_space w.

(** One or two decimal digits. *)
Definition is_number (t : string) : bool :=
  all_chars is_digit t
  && ((String.length t =? 1)%nat || (String.length t =? 2)%nat).

(** Four decimal digits. *)
Definition is_year (t : string) : bool :=
  all_chars is_digit t && (String.length t =? 4)%nat.

(** One of [names], in any letter case. *)
Definition is_name (names : list string) (t : string) : bool :=
  existsb (String.eqb (lower_str t)) names.

(** The number a text of digits spells. *)
Definition value_of (t : string) : Z :=
  match digits_value 0 t with
  | Some v => v
  | None => 0
  end.

(** The number of the month a name abbreviates. *)
Definition month_of (t : string) : Z :=
  match index (lower_str t) a_month with
  | Some m => m
  | None => 0
  end.

(** The texts of the lenient form: a weekday name, a comma, and then,
    after white space each, the day, a month name, the year, the time as
    [H:M:S] and a zone name; names in any letter case, day, hour, minute
    and second in one or two digits, the year in four; the numbers have to
    make a date and a time. *)
Inductive lenient_http_date : string -> datetime -> Prop :=
| lenient_http_date_intro
    (wd ws1 d ws2 mon ws3 y ws4 h mi se ws5 z : string) (dt : datetime) :
    is_name a_weekday wd = true ->
    is_spaces ws1 = true ->
    is_number d = true ->
    is_spaces ws2 = true ->
    is_name (tl a_month) mon = true ->
    is_spaces ws3 = true ->
    is_year y = true ->
    is_spaces ws4 = true ->
    is_number h = true ->
    is_number mi = true ->
    is_number se = true ->
    is_spaces ws5 = true ->
    is_name timezone_names z = true ->
    datetime_new (value_of y) (month_of mon) (value_of d)
      (value_of h) (value_of mi) (value_of se) 0 = Ok dt ->
    lenient_http_date
      (wd ++ "," ++ ws1 ++ d ++ ws2 ++ mon ++ ws3 ++ y ++ ws4
       ++ h ++ ":" ++ mi ++ ":" ++ se ++ ws5 ++ z)%string dt.


(** ** Auxiliary notions of the parsing proofs *)

(** The group of a number: its text, which is digits after at most one
    blank. *)
Definition number_group (n : ascii) (t : string) (g : groups) : Prop :=
  g = [(n, t)]
  /\ exists pad d, t = pad ++ d /\ (pad = "" \/ pad = " ")
                   /\ is_number d = true.

(** The first character of [s] satisfies [p]. *)
Definition starts_with (p : ascii -> bool) (s : string) : bool :=
  match s with
  | String c _ => p c
  | EmptyString => false
  end.

(** Names of one length, in lower case. *)
Definition plain_names (n : nat) (names : list string) : bool :=
  forallb (fun w => (String.length w =? n)%nat && String.eqb (lower_str w) w
                    && negb (String.eqb w "")) names.

(** ** Notions of the further properties of the date functions *)


(** The last character of a text. *)
Fixpoint last_char (s : string) : option ascii :=
  match s with
  | EmptyString => None
  | String c EmptyString => Some c
  | String _ rest => last_char rest
  end.

(** ** Escaping a query string *)




(** * Properties *)

(** ** Strings *)

Lemma append_nil_r (s : string) : s ++ "" = s.
Proof. induction s as [|c s IH]; simpl; [reflexivity | now rewrite IH]. Qed.

Lemma append_assoc (a b c : string) : (a ++ b) ++ c = a ++ (b ++ c).
Proof. induction a as [|x a IH]; simpl; [reflexivity | now rewrite IH]. Qed.

Lemma drop_last_snoc (s : string) (c : ascii) :
  drop_last (s ++ String c "") = s.
Proof.
  induction s as [|x s IH]; [reflexivity|].
  change (String x s ++ String c "") with (String x (s ++ String c "")).
  destruct s as [|y s']; [reflexivity|].
  simpl in *. now rewrite IH.
Qed.

(** ** The query string builder *)

Lemma fold_query_step (l : list (string * value)) (acc : string) :
  fold_left query_step l acc = acc ++ pairs_text l.
Proof.
  revert acc; induction l as [|[k v] l IH]; intros acc.
  - simpl. now rewrite append_nil_r.
  - cbn [fold_left pairs_text]. rewrite IH.
    unfold query_step, pair_text. cbn [fst snd].
    now rewrite !append_assoc.
Qed.

Lemma pairs_text_join (kv : string * value) (l : list (string * value)) :
  pairs_text (kv :: l) = join "&" (map pair_text (kv :: l)) ++ "&".
Proof.
  revert kv; induction l as [|kv' l IH]; intros kv.
  - reflexivity.
  - change (pairs_text (kv :: kv' :: l))
      with (pair_text kv ++ "&" ++ pairs_text (kv' :: l)).
    rewrite IH.
    change (join "&" (map pair_text (kv :: kv' :: l)))
      with (pair_text kv ++ "&" ++ join "&" (map pair_text (kv' :: l))).
    now rewrite !append_assoc.
Qed.

Lemma to_query_str_cons (kv : string * value) (l : list (string * value)) :
  to_query_str (kv :: l) = "?" ++ join "&" (map pair_text (kv :: l)).
Proof.
  unfold to_query_str.
  rewrite fold_query_step, pairs_text_join, <- append_assoc.
  apply drop_last_snoc.
Qed.

(** C4.  The empty mapping gives the empty string; a mapping with at least
    one item gives ["?"] and then its [key=value] pairs in iteration order
    with ["&"] between them and none after the last; the mapping
    [{"a": 1, "b": True, "c": [1,2,3]}] gives ["?a=1&b=true&c=1,2,3"]. *)
Theorem to_query_str_joined :
  to_query_str [] = ""
  /\ (forall kv params,
        to_query_str (kv :: params)
        = "?" ++ join "&" (map pair_text (kv :: params)))
  /\ to_query_str [("a", Scalar (PyInt 1)); ("b", Scalar (PyBool true));
                   ("c", PyList [PyInt 1; PyInt 2; PyInt 3])]
     = "?a=1&b=true&c=1,2,3".
Proof.
  split; [reflexivity|].
  split; [exact to_query_str_cons | reflexivity].
Qed.


Lemma str_int_not_true (n : Z) : str_int n <> "true" /\ str_int n <> "false".
Proof.
  unfold str_int.
  destruct (Z.to_int n) as [d|d]; simpl.
  - destruct d; simpl; split; discriminate.
  - split; discriminate.
Qed.

Lemma map_pair_text_app (pre post : list (string * value)) (kv : string * value) :
  map pair_text (pre ++ kv :: post)
  = (map pair_text pre ++ pair_text kv :: map pair_text post)%list.
Proof. now rewrite map_app. Qed.

Lemma to_query_str_middle (pre post : list (string * value)) (kv : string * value) :
  to_query_str (pre ++ kv :: post)
  = "?" ++ join "&" (map pair_text pre ++ pair_text kv :: map pair_text post)%list.
Proof.
  rewrite <- map_pair_text_app.
  destruct pre as [|kv0 pre]; simpl app; apply to_query_str_cons.
Qed.

(** C10.  Booleans are recognised by identity: in every mapping an item
    whose value is the integer 1 renders as [key=1] and one whose value is
    0 as [key=0]; no integer renders as ["true"] or ["false"]; a scalar
    that renders as ["true"] is [True] itself (or the text ["true"]), and
    likewise for ["false"]. *)
Theorem to_query_str_bool_by_identity :
  (forall pre k post,
     to_query_str (pre ++ (k, Scalar (PyInt 1)) :: post)
     = "?" ++ join "&"
         (map pair_text pre ++ (k ++ "=1")%string :: map pair_text post)%list)
  /\ (forall pre k post,
        to_query_str (pre ++ (k, Scalar (PyInt 0)) :: post)
        = "?" ++ join "&"
            (map pair_text pre ++ (k ++ "=0")%string :: map pair_text post)%list)
  /\ (forall n, transform (Scalar (PyInt n)) <> "true"
                /\ transform (Scalar (PyInt n)) <> "false")
  /\ (forall x, transform (Scalar x) = "true" <->
                  x = PyBool true \/ x = PyStr "true")
  /\ (forall x, transform (Scalar x) = "false" <->
                  x = PyBool false \/ x = PyStr "false").
Proof.
  split; [intros; apply to_query_str_middle|].
  split; [intros; apply to_query_str_middle|].
  split; [intros n; apply str_int_not_true|].
  split; intros x; split.
  - destruct x as [| [|] | n | s]; simpl; try discriminate; auto.
    + intros H. exfalso. exact (proj1 (str_int_not_true n) H).
    + intros ->. now right.
  - intros [-> | ->]; reflexivity.
  - destruct x as [| [|] | n | s]; simpl; try discriminate; auto.
    + intros H. exfalso. exact (proj2 (str_int_not_true n) H).
    + intros ->. now right.
  - intros [-> | ->]; reflexivity.
Qed.

(** ** The deprecation marker *)

Lemma find_action_deprecated (text module : string) (lineno : Z) :
  find_action default_filters ActDefault text DeprecatedWarning module lineno
  = ActDefault.
Proof. reflexivity. Qed.

(** Under the filters the interpreter starts with, a [DeprecationWarning]
    from a module other than [__main__] is dropped: the reason the module
    has a category of its own. *)
Lemma builtin_deprecation_ignored (message filename : string) (lineno : Z)
    (st : warn_state) :
  filters st = default_filters ->
  String.eqb "__main__" (module_of filename) = false ->
  warn_explicit message DeprecationWarning filename lineno st = (Ok tt, st).
Proof.
  intros Hf Hm. unfold warn_explicit. rewrite Hf.
  cbn [find_action default_filters flt_message flt_category flt_module
       flt_lineno flt_action matches].
  rewrite Hm. reflexivity.
Qed.

Lemma warn_explicit_deprecated (message filename : string) (lineno : Z)
    (reg : list (string * category)) (log : list shown_warning) :
  warn_explicit message DeprecatedWarning filename lineno
    (mk_warn_state default_filters ActDefault reg log)
  = (Ok tt,
     mk_warn_state default_filters ActDefault reg
       (log ++ [mk_shown message DeprecatedWarning filename lineno])).
Proof. reflexivity. Qed.

(** C8.  Under the interpreter's default filters, a call of the wrapper
    [deprecated(instructions)(func)] returns what [func] returns on the
    same arguments and leaves the state [func] leaves; it shows exactly one
    warning more, of category [DeprecatedWarning], attributed to the
    caller's file and line, whose message holds the name of [func] and the
    instructions; [DeprecatedWarning] is none of the built-in categories,
    and a subclass of [UserWarning]; the wrapper has the name of [func]. *)
Theorem deprecated_passes_through
    (Args Ret World : Type) (instructions : string)
    (func : function Args Ret World) (caller : frame) (args : Args)
    (world : World) (reg : list (string * category))
    (log : list shown_warning) :
  let w := mk_shown (deprecation_message func instructions) DeprecatedWarning
             (f_code_file caller) (f_lineno caller) in
  wrapped_call (deprecated instructions func) caller args
    (world, mk_warn_state default_filters ActDefault reg log)
  = (fst (call func args world),
     (snd (call func args world),
      mk_warn_state default_filters ActDefault reg (log ++ [w])))
  /\ w_message w
     = "Call to deprecated function " ++ __name__ func ++ "(...). "
       ++ instructions
  /\ ~ In DeprecatedWarning builtin_categories
  /\ issubclass DeprecatedWarning UserWarning = true
  /\ wrapped_name (deprecated instructions func) = __name__ func.
Proof.
  intros w. split.
  - unfold deprecated, decorator, wrapper. cbn [wrapped_call fst snd].
    rewrite warn_explicit_deprecated.
    destruct (call func args world) as [r world']. reflexivity.
  - split; [reflexivity|].
    split; [|split; reflexivity].
    cbn. intros H. repeat (destruct H as [H|H]; [discriminate|]). exact H.
Qed.

(** ** Percent escaping *)

Lemma quoter_described (b : ascii) :
  quoter "/:,=?&-_" b = described_escape b.
Proof. destruct b as [[] [] [] [] [] [] [] []]; reflexivity. Qed.

Lemma flat_map_quoter (bs : bytes) :
  quote_from_bytes bs "/:,=?&-_" = flat_map described_escape bs.
Proof.
  unfold quote_from_bytes.
  induction bs as [|b bs IH]; [reflexivity|].
  cbn [flat_map]. now rewrite IH, quoter_described.
Qed.

(** A lone surrogate has no UTF-8 form: [quote] raises on it. *)
Lemma percent_escape_surrogate :
  percent_escape [55296%N] = Raise UnicodeEncodeError.
Proof. reflexivity. Qed.

(** C6.  For a text whose UTF-8 bytes are [bs], [percent_escape] goes
    through [bs] byte by byte: a letter, a digit, one of [- . _ ~] or one
    of the safe set [/ : , = ? & - _] stays as it is, every other byte
    becomes ['%'] and its two upper-case hexadecimal digits;
    ["/foo bar:baz"] becomes ["/foo%20bar:baz"]. *)
Theorem percent_escape_safe_set (url : text) (bs : bytes)
    (H : utf8_encode url = Ok bs) :
  percent_escape url = Ok (flat_map described_escape bs)
  /\ (forall b : ascii,
        described_escape b
        = if unreserved (code b) || in_safe_set (code b) then [code b]
          else [37%N; hex_digit (code b / 16); hex_digit (code b mod 16)])
  /\ percent_escape (text_of "/foo bar:baz") = Ok (text_of "/foo%20bar:baz")
  /\ percent_escape (text_of "/:,=?&-_") = Ok (text_of "/:,=?&-_").
Proof.
  split; [|split; [reflexivity | split; reflexivity]].
  unfold percent_escape, quote. rewrite H. cbn [bind].
  now rewrite flat_map_quoter.
Qed.

Lemma percent_escape_safe_set_witness :
  utf8_encode [233%N; 32%N; 47%N] = Ok (map byte_of [195%N; 169%N; 32%N; 47%N])
  /\ percent_escape [233%N; 32%N; 47%N] = Ok (text_of "%C3%A9%20/").
Proof.
  split; [reflexivity|].
  apply (percent_escape_safe_set [233%N; 32%N; 47%N]
           (map byte_of [195%N; 169%N; 32%N; 47%N])).
  reflexivity.
Defined.

(** ** Percent unescaping *)

Lemma lossy_nil : lossy [].
Proof. exists []. split; [reflexivity | left; reflexivity]. Qed.

Lemma lossy_error (k : bytes) (bsR bsS : result text) :
  lossy k -> bsR = decode_error Replace (utf8_decode Replace k) ->
  bsS = decode_error Strict (utf8_decode Strict k) ->
  exists t, bsR = Ok t
    /\ (bsS = Ok t \/ (bsS = Raise UnicodeDecodeError /\ In REPLACEMENT_CHARACTER t)).
Proof.
  intros [t [HR _]] -> ->. cbn [decode_error]. rewrite HR. cbn [bind].
  exists (REPLACEMENT_CHARACTER :: t). split; [reflexivity|].
  right. split; [reflexivity | now left].
Qed.

Lemma lossy_char (k : bytes) (c : N) (bsR bsS : result text) :
  lossy k ->
  bsR = (r <- utf8_decode Replace k ;; Ok (c :: r)) ->
  bsS = (r <- utf8_decode Strict k ;; Ok (c :: r)) ->
  exists t, bsR = Ok t
    /\ (bsS = Ok t \/ (bsS = Raise UnicodeDecodeError /\ In REPLACEMENT_CHARACTER t)).
Proof.
  intros [t [HR HS]] -> ->. rewrite HR. cbn [bind].
  exists (c :: t). split; [reflexivity|].
  destruct HS as [HS | [HS Hin]]; rewrite HS; cbn [bind].
  - now left.
  - right. split; [reflexivity | now right].
Qed.

Lemma utf8_decode_lossy_bounded (n : nat) :
  forall bs : bytes, (length bs <= n)%nat -> lossy bs.
Proof.
  induction n as [|n IH]; intros bs Hlen.
  - destruct bs; [apply lossy_nil | simpl in Hlen; lia].
  - destruct bs as [|b0 r0]; [apply lossy_nil|].
    simpl in Hlen.
    unfold lossy. cbn [utf8_decode].
    repeat match goal with
    | |- context [match ?l with [] => _ | _ :: _ => _ end] =>
        is_var l; destruct l
    | |- context [if ?c then _ else _] => destruct c
    end.
    all: first
      [ eapply (lossy_error []); [apply lossy_nil | reflexivity | reflexivity]
      | eapply lossy_error; [ | reflexivity | reflexivity];
        apply IH; simpl in *; lia
      | eapply lossy_char; [ | reflexivity | reflexivity];
        apply IH; simpl in *; lia ].
Qed.

Lemma utf8_decode_lossy (bs : bytes) : lossy bs.
Proof. apply (utf8_decode_lossy_bounded (length bs)). lia. Qed.

Lemma utf8_decode_replace_total (bs : bytes) :
  exists t, utf8_decode Replace bs = Ok t.
Proof. destruct (utf8_decode_lossy bs) as [t [H _]]. now exists t. Qed.

Lemma unquote_run_eq (errors : error_policy) (run : bytes) :
  unquote_run errors run = utf8_decode errors (unquote_to_bytes (rev run)).
Proof. destruct run; reflexivity. Qed.

Lemma unquote_parts_total (s : text) :
  forall run, exists t, unquote_parts Replace run s = Ok t.
Proof.
  induction s as [|cp rest IH]; intros run; cbn [unquote_parts].
  - rewrite unquote_run_eq. apply utf8_decode_replace_total.
  - destruct (cp <? 128)%N; [apply IH|].
    rewrite unquote_run_eq.
    destruct (utf8_decode_replace_total (unquote_to_bytes (rev run))) as [d Hd].
    destruct (IH []) as [r Hr].
    rewrite Hd, Hr. cbn [bind]. eauto.
Qed.

Lemma percent_unescape_total (nstr : text) :
  exists s, percent_unescape nstr = Ok s.
Proof.
  unfold percent_unescape, unquote_plus, unquote.
  destruct (negb _); [eauto | apply unquote_parts_total].
Qed.

Lemma unquote_parts_ascii (errors : error_policy) (s : text) :
  forall run,
    forallb (fun cp => cp <? 128)%N s = true ->
    unquote_parts errors run s
    = unquote_run errors (rev (map byte_of s) ++ run)%list.
Proof.
  induction s as [|cp rest IH]; intros run H; [reflexivity|].
  cbn [forallb] in H. apply andb_true_iff in H. destruct H as [Hcp Hrest].
  cbn [unquote_parts]. rewrite Hcp, IH by exact Hrest.
  cbn [map rev]. now rewrite <- app_assoc.
Qed.

Lemma percent_hex_ascii (b : ascii) :
  forallb (fun cp => cp <? 128)%N (percent_hex b) = true.
Proof. destruct b as [[] [] [] [] [] [] [] []]; reflexivity. Qed.

Lemma percent_hex_no_plus (b : ascii) :
  replace_plus (percent_hex b) = percent_hex b.
Proof. destruct b as [[] [] [] [] [] [] [] []]; reflexivity. Qed.

Lemma unquote_percent_hex (b : ascii) (rest : bytes) :
  unquote_to_bytes (map byte_of (percent_hex b) ++ rest)%list
  = b :: unquote_to_bytes rest.
Proof. destruct b as [[] [] [] [] [] [] [] []]; reflexivity. Qed.

Lemma unquote_all_percent_hex (bs : bytes) :
  unquote_to_bytes (map byte_of (flat_map percent_hex bs)) = bs.
Proof.
  induction bs as [|b bs IH]; [reflexivity|].
  cbn [flat_map]. rewrite map_app, unquote_percent_hex. now rewrite IH.
Qed.

Lemma flat_map_percent_hex_ascii (bs : bytes) :
  forallb (fun cp => cp <? 128)%N (flat_map percent_hex bs) = true.
Proof.
  induction bs as [|b bs IH]; [reflexivity|].
  cbn [flat_map]. rewrite forallb_app, percent_hex_ascii. exact IH.
Qed.

Lemma flat_map_percent_hex_no_plus (bs : bytes) :
  replace_plus (flat_map percent_hex bs) = flat_map percent_hex bs.
Proof.
  induction bs as [|b bs IH]; [reflexivity|].
  cbn [flat_map]. unfold replace_plus in *.
  rewrite map_app, IH. f_equal. apply percent_hex_no_plus.
Qed.

Lemma percent_unescape_percent_hex (bs : bytes) :
  percent_unescape (flat_map percent_hex bs) = utf8_decode Replace bs.
Proof.
  unfold percent_unescape, unquote_plus.
  rewrite flat_map_percent_hex_no_plus.
  destruct bs as [|b bs]; [reflexivity|].
  unfold unquote.
  replace (existsb (N.eqb 37) (flat_map percent_hex (b :: bs))) with true
    by reflexivity.
  cbn [negb].
  rewrite unquote_parts_ascii by apply flat_map_percent_hex_ascii.
  rewrite unquote_run_eq, app_nil_r, rev_involutive.
  now rewrite unquote_all_percent_hex.
Qed.

Lemma percent_unescape_no_percent (s : text) :
  let s' := List.filter (fun cp => negb (cp =? 37)%N) s in
  percent_unescape s' = Ok (replace_plus s').
Proof.
  intros s'. unfold percent_unescape, unquote_plus, unquote.
  replace (existsb (N.eqb 37) (replace_plus s')) with false; [reflexivity|].
  subst s'. induction s as [|cp s IH]; [reflexivity|].
  cbn [List.filter].
  destruct (N.eqb_spec cp 37) as [->|Hne]; cbn [negb]; [exact IH|].
  cbn [replace_plus map existsb]. fold (replace_plus (List.filter (fun cp => negb (cp =? 37)%N) s)).
  rewrite <- IH.
  destruct (N.eqb_spec cp 43) as [->|Hne']; [reflexivity|].
  destruct (N.eqb_spec 37 cp) as [E|_]; [congruence | reflexivity].
Qed.

(** C7.  [percent_unescape] returns a text for every input; it turns every
    ['+'] into a space and every ['%XX'] into the byte [XX], the bytes
    then being decoded as UTF-8: ["a+b%20c"] gives ["a b c"]; bytes that
    are not valid UTF-8 are decoded with U+FFFD in place of each
    ill-formed sequence, where strict decoding raises. *)
Theorem percent_unescape_lossy (nstr : text) :
  (exists s, percent_unescape nstr = Ok s)
  /\ percent_unescape (text_of "a+b%20c") = Ok (text_of "a b c")
  /\ (let plain := List.filter (fun cp => negb (cp =? 37)%N) nstr in
      percent_unescape plain = Ok (replace_plus plain))
  /\ (forall bs : bytes,
        percent_unescape (flat_map percent_hex bs) = utf8_decode Replace bs)
  /\ (forall bs : bytes,
        exists t, utf8_decode Replace bs = Ok t
          /\ (utf8_decode Strict bs = Ok t
              \/ (utf8_decode Strict bs = Raise UnicodeDecodeError
                  /\ In REPLACEMENT_CHARACTER t)))
  /\ percent_unescape (text_of "%FF") = Ok [REPLACEMENT_CHARACTER]
  /\ unquote_plus (text_of "%FF") Strict = Raise UnicodeDecodeError
  /\ percent_unescape (text_of "A%E2%82%ACB%E2%82C")
     = Ok [65%N; 8364%N; 66%N; REPLACEMENT_CHARACTER; 67%N].
Proof.
  split; [apply percent_unescape_total|].
  split; [reflexivity|].
  split; [apply percent_unescape_no_percent|].
  split; [apply percent_unescape_percent_hex|].
  split; [apply utf8_decode_lossy|].
  repeat split; reflexivity.
Qed.

(** ** The two directions together *)

Lemma quoter_no_plus (b : ascii) :
  forallb (fun cp => negb (cp =? 43)%N) (quoter "/:,=?&-_" b) = true.
Proof. destruct b as [[] [] [] [] [] [] [] []]; reflexivity. Qed.

Lemma percent_escape_no_plus (url r : text) :
  percent_escape url = Ok r -> ~ In 43%N r.
Proof.
  unfold percent_escape, quote.
  destruct (utf8_encode url) as [bs|e]; cbn [bind]; [|discriminate].
  intros E. injection E as <-. unfold quote_from_bytes.
  intros Hin. apply in_flat_map in Hin. destruct Hin as [b [_ Hb]].
  pose proof (quoter_no_plus b) as Hq.
  rewrite forallb_forall in Hq. specialize (Hq _ Hb). discriminate.
Qed.

(** C9.  The two functions are not inverses of each other: unescaping
    ["+"] gives a space, and escaping the space gives ["%20"], not ["+"];
    [percent_unescape] turns ['+'] into a space while [percent_escape]
    never writes a ['+'] (it writes ["%2B"] for one). *)
Theorem percent_round_trip_asymmetric :
  (exists s : text,
     (r <- percent_unescape s ;; percent_escape r) <> Ok s)
  /\ percent_unescape (text_of "+") = Ok (text_of " ")
  /\ percent_escape (text_of " ") = Ok (text_of "%20")
  /\ percent_escape (text_of "+") = Ok (text_of "%2B")
  /\ (forall url : text,
        match percent_escape url with
        | Ok r => ~ In 43%N r
        | Raise _ => True
        end).
Proof.
  split.
  { exists (text_of "+"). cbn. discriminate. }
  repeat split.
  intros url. destruct (percent_escape url) as [r|e] eqn:E; [|exact I].
  exact (percent_escape_no_plus url r E).
Qed.

(** ** HTTP dates: formatting *)




Lemma days_in_month_le_31 (y m : Z) : (days_in_month y m <= 31)%Z.
Proof.
  unfold days_in_month.
  destruct ((m =? 2)%Z && is_leap y); [lia|].
  destruct (Z.to_nat m) as [|[|[|[|[|[|[|[|[|[|[|[|[|[|k]]]]]]]]]]]]]];
    cbn; lia.
Qed.

(** The ranges of the fields of a [datetime]. *)
Lemma valid_datetime_ranges (dt : datetime) :
  valid_datetime dt ->
  (1 <= year dt <= 9999 /\ 1 <= month dt <= 12 /\ 1 <= day dt <= 31
   /\ 0 <= hour dt <= 23 /\ 0 <= minute dt <= 59 /\ 0 <= second dt <= 59
   /\ 0 <= microsecond dt <= 999999)%Z.
Proof.
  unfold valid_datetime, check_date_fields, check_time_fields, MINYEAR, MAXYEAR.
  intros H.
  repeat (apply andb_true_iff in H; destruct H as [H ?]).
  pose proof (days_in_month_le_31 (year dt) (month dt)).
  lia.
Qed.





(** ** HTTP dates: parsing what was formatted *)

Lemma pattern_http_date :
  pattern "%a, %d %b %Y %H:%M:%S %Z" = Some http_date_regex.
Proof. reflexivity. Qed.

Lemma first_match_seq (r1 r2 : regex) (s t1 s1 t2 s2 : string) (g1 g2 : groups) :
  first_match r1 s t1 g1 s1 -> first_match r2 s1 t2 g2 s2 ->
  first_match (Seq r1 r2) s (t1 ++ t2) (g1 ++ g2)%list s2.
Proof.
  intros [o1 H1] [o2 H2]. unfold first_match. cbn [rmatch].
  rewrite H1. cbn [flat_map]. rewrite H2. cbn [map app]. eauto.
Qed.

Lemma first_match_lit (c : ascii) (rest : string) :
  first_match (Lit c) (String c rest) (String c "") [] rest.
Proof.
  unfold first_match. cbn [rmatch]. rewrite Ascii.eqb_refl. eauto.
Qed.


Lemma first_match_empty (s : string) : first_match Empty s "" [] s.
Proof. unfold first_match. cbn. eauto. Qed.





Tactic Notation "enum_field" constr(d) integer(n) :=
  let k := fresh "k" in
  let E := fresh "E" in
  let Hd := fresh "Hd" in
  remember (Z.to_nat d) as k eqn:E;
  assert (Hd : d = Z.of_nat k) by lia; subst d; clear E;
  do n (destruct k as [|k]; [first [lia | eexists; reflexivity]|]); lia.




Lemma first_match_four_digits (a b c d : ascii) (rest : string) :
  is_digit a = true -> is_digit b = true ->
  is_digit c = true -> is_digit d = true ->
  first_match (directive_re "Y")
    (String a (String b (String c (String d rest))))
    (String a (String b (String c (String d ""))))
    [("Y"%char, String a (String b (String c (String d ""))))] rest.
Proof.
  intros Ha Hb Hc Hd. unfold first_match, directive_re.
  cbn [TimeRE rmatch]. rewrite Ha. cbn [flat_map map app].
  rewrite Hb. cbn [flat_map map app]. rewrite Hc. cbn [flat_map map app].
  rewrite Hd. cbn. eauto.
Qed.













(** ** HTTP dates: what a match tells *)

Lemma in_plus_set (p : ascii -> bool) (s t rest : string) :
  In (t, rest) (plus_set p s) ->
  s = t ++ rest /\ t <> "" /\ all_chars p t = true.
Proof.
  revert t rest; induction s as [|c s IH]; intros t rest H; [destruct H|].
  cbn [plus_set] in H. destruct (p c) eqn:Hc; [|destruct H].
  apply in_app_or in H. destruct H as [H|[H|[]]].
  - apply in_map_iff in H. destruct H as [[t' r'] [E Hin]].
    cbn [fst snd] in E. injection E as <- <-.
    destruct (IH _ _ Hin) as (-> & _ & Hall).
    repeat split; [discriminate|]. cbn. now rewrite Hc.
  - injection H as <- <-. repeat split; [discriminate|].
    cbn. now rewrite Hc.
Qed.

Lemma in_rmatch_plus (p : ascii -> bool) (s t rest : string) (g : groups) :
  In (t, g, rest) (rmatch (PlusSet p) s) ->
  s = t ++ rest /\ t <> "" /\ all_chars p t = true /\ g = [].
Proof.
  cbn [rmatch]. intros H. apply in_map_iff in H.
  destruct H as [[t' r'] [E Hin]]. cbn [fst snd] in E. injection E as <- <- <-.
  destruct (in_plus_set _ _ _ _ Hin) as (? & ? & ?). auto.
Qed.

Lemma in_rmatch_lit (c : ascii) (s t rest : string) (g : groups) :
  In (t, g, rest) (rmatch (Lit c) s) ->
  exists c', s = String c' rest /\ lower c' = lower c
             /\ t = String c' "" /\ g = [].
Proof.
  cbn [rmatch]. destruct s as [|c' s']; [intros []|].
  destruct (Ascii.eqb_spec (lower c') (lower c)) as [E|E]; [|intros []].
  intros [H|[]]. injection H as <- <- <-. eauto.
Qed.

Lemma in_rmatch_set (p : ascii -> bool) (s t rest : string) (g : groups) :
  In (t, g, rest) (rmatch (CharSet p) s) ->
  exists c', s = String c' rest /\ p c' = true /\ t = String c' "" /\ g = [].
Proof.
  cbn [rmatch]. destruct s as [|c' s']; [intros []|].
  destruct (p c') eqn:E; [|intros []].
  intros [H|[]]. injection H as <- <- <-. eauto.
Qed.

Lemma in_rmatch_seq (r1 r2 : regex) (s t rest : string) (g : groups) :
  In (t, g, rest) (rmatch (Seq r1 r2) s) ->
  exists t1 g1 s1 t2 g2,
    In (t1, g1, s1) (rmatch r1 s) /\ In (t2, g2, rest) (rmatch r2 s1)
    /\ t = t1 ++ t2 /\ g = (g1 ++ g2)%list.
Proof.
  cbn [rmatch]. intros H. apply in_flat_map in H.
  destruct H as [[[t1 g1] s1] [H1 H]].
  apply in_map_iff in H. destruct H as [[[t2 g2] s2] [E H2]].
  injection E as <- <- <-. exists t1, g1, s1, t2, g2. auto.
Qed.

Lemma in_rmatch_alt (r1 r2 : regex) (s t rest : string) (g : groups) :
  In (t, g, rest) (rmatch (Alt r1 r2) s) ->
  In (t, g, rest) (rmatch r1 s) \/ In (t, g, rest) (rmatch r2 s).
Proof. cbn [rmatch]. apply in_app_or. Qed.

Lemma in_rmatch_group (n : ascii) (r : regex) (s t rest : string) (g : groups) :
  In (t, g, rest) (rmatch (Group n r) s) ->
  exists g0, In (t, g0, rest) (rmatch r s) /\ g = (g0 ++ [(n, t)])%list.
Proof.
  cbn [rmatch]. intros H. apply in_map_iff in H.
  destruct H as [[[t0 g0] s0] [E H]]. injection E as <- <- <-. eauto.
Qed.

Lemma in_rmatch_empty (s t rest : string) (g : groups) :
  In (t, g, rest) (rmatch Empty s) -> t = "" /\ g = [] /\ rest = s.
Proof. cbn [rmatch]. intros [H|[]]. injection H as <- <- <-. auto. Qed.

(** A match takes a prefix of the text. *)
Lemma rmatch_prefix (r : regex) :
  forall s t g rest, In (t, g, rest) (rmatch r s) -> s = t ++ rest.
Proof.
  induction r as [c|p|p|r1 IH1 r2 IH2|r1 IH1 r2 IH2| | |n r IH];
    intros s t g rest H.
  - apply in_rmatch_lit in H. destruct H as (c' & -> & _ & -> & _). reflexivity.
  - apply in_rmatch_set in H. destruct H as (c' & -> & _ & -> & _). reflexivity.
  - apply in_rmatch_plus in H. tauto.
  - apply in_rmatch_seq in H.
    destruct H as (t1 & g1 & s1 & t2 & g2 & H1 & H2 & -> & _).
    rewrite (IH1 _ _ _ _ H1), (IH2 _ _ _ _ H2). now rewrite append_assoc.
  - apply in_rmatch_alt in H. destruct H as [H|H]; eauto.
  - apply in_rmatch_empty in H. destruct H as (-> & _ & ->). reflexivity.
  - destruct H.
  - apply in_rmatch_group in H. destruct H as (g0 & H & _). eauto.
Qed.

Lemma in_rmatch_word (w : string) :
  forall s t g rest,
    In (t, g, rest) (rmatch (word w) s) ->
    lower_str t = lower_str w /\ g = [].
Proof.
  induction w as [|c w IH]; intros s t g rest H.
  - apply in_rmatch_empty in H. destruct H as (-> & -> & _). auto.
  - destruct w as [|c2 w'].
    + apply in_rmatch_lit in H. destruct H as (c' & _ & E & -> & ->).
      cbn. now rewrite E.
    + change (word (String c (String c2 w')))
        with (Seq (Lit c) (word (String c2 w'))) in H.
      apply in_rmatch_seq in H.
      destruct H as (t1 & g1 & s1 & t2 & g2 & H1 & H2 & -> & ->).
      apply in_rmatch_lit in H1. destruct H1 as (c' & _ & E & -> & ->).
      destruct (IH _ _ _ _ H2) as [E2 ->].
      split; [|reflexivity].
      change (lower_str (String c' "" ++ t2))
        with (String (lower c') (lower_str t2)).
      rewrite E, E2. reflexivity.
Qed.

Lemma in_rmatch_names (names : list string) (n : ascii) :
  forall s t g rest,
    In (t, g, rest) (rmatch (seqToRE names n) s) ->
    In (lower_str t) (map lower_str names) /\ g = [(n, t)].
Proof.
  intros s t g rest H. unfold seqToRE in H.
  apply in_rmatch_group in H. destruct H as (g0 & H & ->).
  assert (G : In (lower_str t) (map lower_str names) /\ g0 = []).
  { clear n. induction names as [|w names IH]; [destruct H|].
    destruct names as [|w2 names'].
    - cbn [map alternation] in H. apply in_rmatch_word in H.
      destruct H as [E ->]. split; [left; now rewrite E | reflexivity].
    - change (alternation (map word (w :: w2 :: names')))
        with (Alt (word w) (alternation (map word (w2 :: names')))) in H.
      apply in_rmatch_alt in H. destruct H as [H|H].
      + apply in_rmatch_word in H. destruct H as [E ->].
        split; [left; now rewrite E | reflexivity].
      + destruct (IH H) as [Hin ->]. split; [right; exact Hin | reflexivity]. }
  destruct G as [G ->]. auto.
Qed.

Ltac invert_rmatch :=
  repeat match goal with
  | H : In _ (rmatch (Group _ _) _) |- _ =>
      apply in_rmatch_group in H; destruct H as (? & H & ?)
  | H : In _ (rmatch (Alt _ _) _) |- _ =>
      apply in_rmatch_alt in H; destruct H as [H|H]
  | H : In _ (rmatch (Seq _ _) _) |- _ =>
      apply in_rmatch_seq in H; destruct H as (? & ? & ? & ? & ? & H & ? & ? & ?)
  | H : In _ (rmatch (Lit _) _) |- _ =>
      apply in_rmatch_lit in H; destruct H as (? & ? & ? & ? & ?)
  | H : In _ (rmatch (CharSet _) _) |- _ =>
      apply in_rmatch_set in H; destruct H as (? & ? & ? & ? & ?)
  | H : In _ (rmatch (PlusSet _) _) |- _ =>
      apply in_rmatch_plus in H; destruct H as (? & ? & ? & ?)
  | H : In _ (rmatch Empty _) |- _ =>
      apply in_rmatch_empty in H; destruct H as (? & ? & ?)
  end.

Lemma lower_plain (c x : ascii) :
  In x ["0"; "2"; "3"; "6"; " "; ","; ":"]%char ->
  lower c = lower x -> c = x.
Proof.
  intros Hx.
  repeat (destruct Hx as [<-|Hx]; [
    destruct c as [[] [] [] [] [] [] [] []]; intros H;
    first [discriminate H | reflexivity] |]).
  destruct Hx.
Qed.

Lemma in_range_digit (lo hi c : ascii) :
  in_range lo hi c = true -> is_digit lo = true -> is_digit hi = true ->
  is_digit c = true.
Proof.
  unfold in_range, is_digit. rewrite !andb_true_iff, !N.leb_le. lia.
Qed.

Ltac digit_fact :=
  match goal with
  | H : lower ?c = lower ?x |- _ =>
      apply lower_plain in H; [subst c | cbn; tauto]
  | H : in_range ?lo ?hi ?c = true |- _ =>
      apply in_range_digit in H; [|reflexivity|reflexivity]
  end.

Ltac number_done :=
  first [ exists " "; eexists; split; [reflexivity|]; split; [now right|]
        | exists ""; eexists; split; [reflexivity|]; split; [now left|]
        | idtac ];
  unfold is_number, is_year; cbn [all_chars append String.length];
  repeat match goal with H : is_digit _ = true |- _ => rewrite H end;
  reflexivity.

Lemma in_rmatch_day (s t rest : string) (g : groups) :
  In (t, g, rest) (rmatch (directive_re "d") s) -> number_group "d" t g.
Proof.
  unfold directive_re, TimeRE, alternation. intros H.
  invert_rmatch; subst; repeat digit_fact.
  all: split; [reflexivity|]; number_done.
Qed.

Lemma in_rmatch_hour (s t rest : string) (g : groups) :
  In (t, g, rest) (rmatch (directive_re "H") s) ->
  g = [("H"%char, t)] /\ is_number t = true.
Proof.
  unfold directive_re, TimeRE, alternation. intros H.
  invert_rmatch; subst; repeat digit_fact.
  all: split; [reflexivity|]; number_done.
Qed.

Lemma in_rmatch_minute (s t rest : string) (g : groups) :
  In (t, g, rest) (rmatch (directive_re "M") s) ->
  g = [("M"%char, t)] /\ is_number t = true.
Proof.
  unfold directive_re, TimeRE, alternation. intros H.
  invert_rmatch; subst; repeat digit_fact.
  all: split; [reflexivity|]; number_done.
Qed.

Lemma in_rmatch_second (s t rest : string) (g : groups) :
  In (t, g, rest) (rmatch (directive_re "S") s) ->
  g = [("S"%char, t)] /\ is_number t = true.
Proof.
  unfold directive_re, TimeRE, alternation. intros H.
  invert_rmatch; subst; repeat digit_fact.
  all: split; [reflexivity|]; number_done.
Qed.

Lemma in_rmatch_year (s t rest : string) (g : groups) :
  In (t, g, rest) (rmatch (directive_re "Y") s) ->
  g = [("Y"%char, t)] /\ is_year t = true.
Proof.
  unfold directive_re, TimeRE. intros H.
  invert_rmatch; subst.
  split; [reflexivity|]; number_done.
Qed.

Lemma is_name_In (names : list string) (t : string) :
  is_name names t = true <-> In (lower_str t) names.
Proof.
  unfold is_name. rewrite existsb_exists. split.
  - intros [x [Hin E]]. apply String.eqb_eq in E. now subst.
  - intros H. exists (lower_str t). split; [exact H | apply String.eqb_refl].
Qed.

Lemma in_rmatch_weekday (s t rest : string) (g : groups) :
  In (t, g, rest) (rmatch (directive_re "a") s) ->
  g = [("a"%char, t)] /\ is_name a_weekday t = true.
Proof.
  change (directive_re "a") with (seqToRE a_weekday "a"). intros H.
  apply in_rmatch_names in H. destruct H as [H ->].
  split; [reflexivity|]. apply is_name_In. exact H.
Qed.

Lemma in_rmatch_month (s t rest : string) (g : groups) :
  In (t, g, rest) (rmatch (directive_re "b") s) ->
  g = [("b"%char, t)] /\ is_name (tl a_month) t = true.
Proof.
  change (directive_re "b") with (seqToRE (tl a_month) "b"). intros H.
  apply in_rmatch_names in H. destruct H as [H ->].
  split; [reflexivity|]. apply is_name_In. exact H.
Qed.

Lemma in_rmatch_zone (s t rest : string) (g : groups) :
  In (t, g, rest) (rmatch (directive_re "Z") s) ->
  g = [("Z"%char, t)] /\ is_name timezone_names t = true.
Proof.
  change (directive_re "Z") with (seqToRE timezone_names "Z"). intros H.
  apply in_rmatch_names in H. destruct H as [H ->].
  split; [reflexivity|]. apply is_name_In. exact H.
Qed.

(** *** What [int] makes of the texts of the groups *)

Lemma digit_not_space (c : ascii) : is_digit c = true -> is_space c = false.
Proof. destruct c as [[] [] [] [] [] [] [] []]; cbn; congruence. Qed.

Lemma rstrip_digits (t : string) :
  all_chars is_digit t = true -> rstrip t = t.
Proof.
  induction t as [|c t IH]; [reflexivity|].
  cbn [all_chars]. intros H. apply andb_true_iff in H. destruct H as [Hc Ht].
  cbn [rstrip]. rewrite (IH Ht).
  destruct t; [now rewrite (digit_not_space c Hc) | reflexivity].
Qed.

Lemma digits_value_some (t : string) :
  all_chars is_digit t = true ->
  forall acc, exists v, digits_value acc t = Some v.
Proof.
  induction t as [|c t IH]; intros H acc; [cbn; eauto|].
  cbn [all_chars] in H. apply andb_true_iff in H. destruct H as [Hc Ht].
  cbn [digits_value]. rewrite Hc. apply (IH Ht).
Qed.

Lemma py_int_digits (t : string) :
  all_chars is_digit t = true -> t <> "" -> py_int t = Ok (value_of t).
Proof.
  intros H Hne. unfold py_int, strip.
  destruct t as [|c t']; [congruence|].
  pose proof H as H'. cbn [all_chars] in H'.
  apply andb_true_iff in H'. destruct H' as [Hc _].
  cbn [skip_spaces]. rewrite (digit_not_space c Hc), (rstrip_digits _ H).
  unfold value_of.
  destruct (digits_value_some _ H 0) as [v ->]. reflexivity.
Qed.

Lemma is_number_digits (t : string) :
  is_number t = true -> all_chars is_digit t = true /\ t <> "".
Proof.
  unfold is_number. intros H. apply andb_true_iff in H. destruct H as [H L].
  split; [exact H|]. intros ->. discriminate L.
Qed.

Lemma is_year_digits (t : string) :
  is_year t = true -> all_chars is_digit t = true /\ t <> "".
Proof.
  unfold is_year. intros H. apply andb_true_iff in H. destruct H as [H L].
  split; [exact H|]. intros ->. discriminate L.
Qed.

Lemma py_int_number (t : string) :
  is_number t = true -> py_int t = Ok (value_of t).
Proof. intros H. apply is_number_digits in H. now apply py_int_digits. Qed.

Lemma py_int_year (t : string) :
  is_year t = true -> py_int t = Ok (value_of t).
Proof. intros H. apply is_year_digits in H. now apply py_int_digits. Qed.

Lemma py_int_padded (pad d : string) :
  pad = "" \/ pad = " " -> is_number d = true ->
  py_int (pad ++ d) = Ok (value_of d).
Proof.
  intros [-> | ->] H; [now apply py_int_number|].
  rewrite <- (py_int_number d H). reflexivity.
Qed.

Lemma index_is_name (names : list string) (t : string) :
  is_name names t = true -> exists i, index (lower_str t) names = Some i.
Proof.
  rewrite is_name_In. induction names as [|w names IH]; [intros []|].
  intros H. cbn [index].
  destruct (String.eqb_spec (lower_str t) w) as [E|E]; [eauto|].
  destruct H as [H|H]; [congruence|].
  destruct (IH H) as [i ->]. eauto.
Qed.

Lemma all_chars_app (p : ascii -> bool) (a b : string) :
  all_chars p (a ++ b) = all_chars p a && all_chars p b.
Proof.
  induction a as [|c a IH]; [reflexivity|].
  cbn [append all_chars]. now rewrite IH, andb_assoc.
Qed.

Lemma is_spaces_intro (w : string) :
  w <> "" -> all_chars is_space w = true -> is_spaces w = true.
Proof.
  intros Hne H. unfold is_spaces. rewrite H.
  destruct w; [congruence | reflexivity].
Qed.

Lemma is_spaces_pad (w pad : string) :
  is_spaces w = true -> pad = "" \/ pad = " " -> is_spaces (w ++ pad) = true.
Proof.
  unfold is_spaces. intros H Hp. apply andb_true_iff in H.
  destruct H as [Hne Hall]. rewrite all_chars_app, Hall.
  destruct w as [|c w]; [discriminate|].
  destruct Hp as [-> | ->]; reflexivity.
Qed.

Ltac split_seq H t g s1 H1 :=
  apply in_rmatch_seq in H;
  let t2 := fresh "t" in
  let g2 := fresh "g" in
  destruct H as (t & g & s1 & t2 & g2 & H1 & H & -> & ->).

(** Whatever [http_date_to_dt] accepts has the lenient form. *)
Lemma http_date_to_dt_sound (s : string) (dt : datetime) :
  http_date_to_dt s = Ok dt -> lenient_http_date s dt.
Proof.
  unfold http_date_to_dt, strptime. rewrite pattern_http_date.
  destruct (rmatch http_date_regex s) as [|[[t g] rest] others] eqn:Hm;
    [discriminate|].
  destruct rest; [|discriminate].
  assert (H : In (t, g, "") (rmatch http_date_regex s))
    by (rewrite Hm; now left).
  clear Hm others. unfold http_date_regex in H.
  pose proof (rmatch_prefix _ _ _ _ _ H) as Hs. rewrite append_nil_r in Hs.
  subst s.
  split_seq H wd gwd s1 Hwd.
  split_seq H c1 gc1 s2 Hc1.
  split_seq H ws1 gs1 s3 Hws1.
  split_seq H td gd s4 Hd.
  split_seq H ws2 gs2 s5 Hws2.
  split_seq H mon gmon s6 Hmon.
  split_seq H ws3 gs3 s7 Hws3.
  split_seq H y gy s8 Hy.
  split_seq H ws4 gs4 s9 Hws4.
  split_seq H h gh s10 Hh.
  split_seq H c2 gc2 s11 Hc2.
  split_seq H mi gmi s12 Hmi.
  split_seq H c3 gc3 s13 Hc3.
  split_seq H se gse s14 Hse.
  split_seq H ws5 gs5 s15 Hws5.
  split_seq H z gz s16 Hz.
  apply in_rmatch_empty in H. destruct H as (-> & -> & _).
  apply in_rmatch_weekday in Hwd. destruct Hwd as [-> Hwd].
  apply in_rmatch_lit in Hc1. destruct Hc1 as (k1 & _ & E1 & -> & ->).
  apply lower_plain in E1; [subst k1 | cbn; tauto].
  apply in_rmatch_plus in Hws1. destruct Hws1 as (_ & N1 & A1 & ->).
  apply in_rmatch_day in Hd. destruct Hd as (-> & pad & d & -> & Hpad & Hd).
  apply in_rmatch_plus in Hws2. destruct Hws2 as (_ & N2 & A2 & ->).
  apply in_rmatch_month in Hmon. destruct Hmon as [-> Hmon].
  apply in_rmatch_plus in Hws3. destruct Hws3 as (_ & N3 & A3 & ->).
  apply in_rmatch_year in Hy. destruct Hy as [-> Hy].
  apply in_rmatch_plus in Hws4. destruct Hws4 as (_ & N4 & A4 & ->).
  apply in_rmatch_hour in Hh. destruct Hh as [-> Hh].
  apply in_rmatch_lit in Hc2. destruct Hc2 as (k2 & _ & E2 & -> & ->).
  apply lower_plain in E2; [subst k2 | cbn; tauto].
  apply in_rmatch_minute in Hmi. destruct Hmi as [-> Hmi].
  apply in_rmatch_lit in Hc3. destruct Hc3 as (k3 & _ & E3 & -> & ->).
  apply lower_plain in E3; [subst k3 | cbn; tauto].
  apply in_rmatch_second in Hse. destruct Hse as [-> Hse].
  apply in_rmatch_plus in Hws5. destruct Hws5 as (_ & N5 & A5 & ->).
  apply in_rmatch_zone in Hz. destruct Hz as [-> Hz].
  cbn [app set_fields set_field].
  destruct (index (lower_str wd) a_weekday) as [iw|] eqn:Ew;
    [|discriminate].
  cbn [of_option bind].
  rewrite (py_int_padded pad d Hpad Hd). cbn [bind].
  pose proof (eq_refl (month_of mon)) as Em. unfold month_of at 1 in Em.
  destruct (index (lower_str mon) a_month) as [im|] eqn:Eb; [|discriminate].
  cbn [of_option bind].
  rewrite (py_int_year y Hy). cbn [bind].
  rewrite (py_int_number h Hh). cbn [bind].
  rewrite (py_int_number mi Hmi). cbn [bind].
  rewrite (py_int_number se Hse). cbn [bind].
  cbn [f_year f_month f_day f_hour f_minute f_second f_weekday].
  destruct (check_date_fields (value_of y) im (value_of d)); [|discriminate].
  intros Hnew. subst im.
  replace (wd ++ "," ++ ws1 ++ (pad ++ d) ++ ws2 ++ mon ++ ws3 ++ y ++ ws4
           ++ h ++ ":" ++ mi ++ ":" ++ se ++ ws5 ++ z ++ "")
    with (wd ++ "," ++ (ws1 ++ pad) ++ d ++ ws2 ++ mon ++ ws3 ++ y ++ ws4
          ++ h ++ ":" ++ mi ++ ":" ++ se ++ ws5 ++ z)
    by (now rewrite append_nil_r, !append_assoc).
  apply lenient_http_date_intro; auto using is_spaces_intro, is_spaces_pad.
Qed.

(** ** HTTP dates: what is matched first *)

Lemma starts_with_app (p : ascii -> bool) (a b : string) :
  a <> "" -> starts_with p (a ++ b) = starts_with p a.
Proof. destruct a; [congruence | reflexivity]. Qed.

Lemma is_digit_cases (c : ascii) :
  is_digit c = true ->
  In c ["0"; "1"; "2"; "3"; "4"; "5"; "6"; "7"; "8"; "9"]%char.
Proof.
  destruct c as [[] [] [] [] [] [] [] []]; cbn; intros H;
    first [discriminate H | tauto].
Qed.

Lemma is_space_cases (c : ascii) :
  is_space c = true ->
  In c (map ascii_of_N [9; 10; 11; 12; 13; 28; 29; 30; 31; 32; 133; 160]%N).
Proof.
  destruct c as [[] [] [] [] [] [] [] []]; cbn; intros H;
    first [discriminate H | tauto].
Qed.

Lemma lower_space (c : ascii) : is_space (lower c) = is_space c.
Proof. destruct c as [[] [] [] [] [] [] [] []]; reflexivity. Qed.

Lemma plus_set_greedy (p : ascii -> bool) (w s : string) :
  w <> "" -> all_chars p w = true -> starts_with p s = false ->
  exists others, plus_set p (w ++ s) = (w, s) :: others.
Proof.
  induction w as [|a w IH]; [congruence|].
  intros _ Hall Hs. cbn [all_chars] in Hall.
  apply andb_true_iff in Hall. destruct Hall as [Ha Hw].
  cbn [append plus_set]. rewrite Ha.
  destruct w as [|b w'].
  - cbn [append]. destruct s as [|c rest]; cbn [plus_set].
    + cbn. eauto.
    + cbn [starts_with] in Hs. rewrite Hs. cbn. eauto.
  - destruct (IH ltac:(discriminate) Hw Hs) as [o Ho].
    rewrite Ho. cbn [map app fst snd]. eauto.
Qed.

Lemma first_match_spaces (w s : string) :
  is_spaces w = true -> starts_with is_space s = false ->
  first_match (PlusSet is_space) (w ++ s) w [] s.
Proof.
  unfold is_spaces. intros Hw Hs. apply andb_true_iff in Hw.
  destruct Hw as [Hne Hall].
  assert (Hne' : w <> "") by (intros ->; discriminate).
  destruct (plus_set_greedy is_space w s Hne' Hall Hs) as [o Ho].
  unfold first_match. cbn [rmatch]. rewrite Ho. cbn. eauto.
Qed.

Lemma length_lower_str (t : string) :
  String.length (lower_str t) = String.length t.
Proof. induction t; cbn; congruence. Qed.

Lemma rmatch_word (w : string) :
  forall t rest,
    w <> "" -> String.length t = String.length w ->
    rmatch (word w) (t ++ rest)
    = if String.eqb (lower_str t) (lower_str w) then [(t, [], rest)] else [].
Proof.
  induction w as [|c w IH]; intros t rest Hne Hlen; [congruence|].
  destruct t as [|c' t']; [discriminate|].
  cbn [String.length] in Hlen. injection Hlen as Hlen.
  destruct w as [|c2 w'].
  - destruct t'; [|discriminate]. cbn [word append rmatch lower_str].
    cbn [String.eqb]. destruct (Ascii.eqb (lower c') (lower c)); reflexivity.
  - change (word (String c (String c2 w')))
      with (Seq (Lit c) (word (String c2 w'))).
    cbn [append rmatch lower_str String.eqb].
    destruct (Ascii.eqb (lower c') (lower c)); [|reflexivity].
    cbn [flat_map]. rewrite IH by (discriminate || exact Hlen).
    cbn [lower_str].
    match goal with |- context [if ?b then _ else _] => destruct b end;
      reflexivity.
Qed.

Lemma first_match_names (n : nat) (names : list string) (d : ascii)
    (t rest : string) :
  plain_names n names = true -> is_name names t = true ->
  first_match (seqToRE names d) (t ++ rest) t [(d, t)] rest.
Proof.
  intros Hp Hn. apply is_name_In in Hn.
  assert (Hlen : String.length t = n).
  { unfold plain_names in Hp. rewrite forallb_forall in Hp.
    specialize (Hp _ Hn). rewrite !andb_true_iff in Hp.
    destruct Hp as [[Hl _] _]. apply Nat.eqb_eq in Hl.
    now rewrite length_lower_str in Hl. }
  assert (G : first_match (alternation (map word names)) (t ++ rest) t [] rest).
  { induction names as [|w names IH]; [destruct Hn|].
    cbn [plain_names forallb] in Hp. rewrite !andb_true_iff in Hp.
    destruct Hp as [[[Hl Hw] Hne] Hp].
    apply Nat.eqb_eq in Hl. apply String.eqb_eq in Hw.
    assert (Hne' : w <> "") by (intros ->; discriminate).
    assert (Hrm := rmatch_word w t rest Hne' ltac:(congruence)).
    rewrite Hw in Hrm.
    destruct names as [|w2 names'].
    - cbn [map alternation]. unfold first_match. rewrite Hrm.
      destruct Hn as [Hn|[]]. rewrite <- Hn, String.eqb_refl. eauto.
    - change (alternation (map word (w :: w2 :: names')))
        with (Alt (word w) (alternation (map word (w2 :: names')))).
      unfold first_match. cbn [rmatch]. rewrite Hrm.
      destruct (String.eqb_spec (lower_str t) w) as [E|E]; [cbn; eauto|].
      destruct Hn as [Hn|Hn]; [congruence|].
      cbn [app]. apply IH; assumption. }
  destruct G as [o Ho]. unfold first_match, seqToRE. cbn [rmatch].
  rewrite Ho. cbn. eauto.
Qed.

Lemma name_not_space (n : nat) (names : list string) (t : string) :
  forallb (starts_with (fun c => negb (is_space c))) names = true ->
  is_name names t = true -> starts_with is_space t = false.
Proof.
  intros Hp Hn. apply is_name_In in Hn. rewrite forallb_forall in Hp.
  specialize (Hp _ Hn). destruct t as [|c t']; [reflexivity|].
  cbn [lower_str starts_with] in *. rewrite lower_space in Hp.
  now apply negb_true_iff in Hp.
Qed.

Ltac enum_in H tac :=
  repeat (destruct H as [<-|H]; [tac|]); try destruct H.

Lemma number_shape (d : string) :
  is_number d = true ->
  (exists a, d = String a "" /\ is_digit a = true)
  \/ (exists a b, d = String a (String b "")
                  /\ is_digit a = true /\ is_digit b = true).
Proof.
  unfold is_number. intros H. apply andb_true_iff in H. destruct H as [Hd Hl].
  destruct d as [|a [|b [|c d']]]; try discriminate Hl.
  - left. exists a. cbn in Hd. rewrite andb_true_r in Hd. auto.
  - right. exists a, b. cbn in Hd. rewrite andb_true_r in Hd.
    apply andb_true_iff in Hd. destruct Hd. auto.
Qed.

Lemma first_match_day_text (d s : string) :
  is_number d = true -> 1 <= value_of d <= 31 ->
  starts_with is_space s = true ->
  first_match (directive_re "d") (d ++ s) d [("d"%char, d)] s.
Proof.
  intros Hd Hv Hs. destruct s as [|c rest]; [discriminate|].
  cbn [starts_with] in Hs. unfold first_match.
  destruct (number_shape d Hd) as [(a & -> & Ha) | (a & b & -> & Ha & Hb)].
  - apply is_digit_cases in Ha. apply is_space_cases in Hs. cbn [map] in Hs.
    enum_in Ha ltac:(first [ exfalso; cbn in Hv; lia
                           | enum_in Hs ltac:(eexists; reflexivity) ]).
  - apply is_digit_cases in Ha. apply is_digit_cases in Hb.
    enum_in Ha ltac:(enum_in Hb ltac:(first [ exfalso; cbn in Hv; lia
                                            | eexists; reflexivity ])).
Qed.

Lemma first_match_hour_text (h rest : string) :
  is_number h = true -> 0 <= value_of h <= 23 ->
  first_match (directive_re "H") (h ++ String ":" rest) h [("H"%char, h)]
    (String ":" rest).
Proof.
  intros Hd Hv. unfold first_match.
  destruct (number_shape h Hd) as [(a & -> & Ha) | (a & b & -> & Ha & Hb)].
  - apply is_digit_cases in Ha.
    enum_in Ha ltac:(first [ exfalso; cbn in Hv; lia | eexists; reflexivity ]).
  - apply is_digit_cases in Ha. apply is_digit_cases in Hb.
    enum_in Ha ltac:(enum_in Hb ltac:(first [ exfalso; cbn in Hv; lia
                                            | eexists; reflexivity ])).
Qed.

Lemma first_match_minute_text (m rest : string) :
  is_number m = true -> 0 <= value_of m <= 59 ->
  first_match (directive_re "M") (m ++ String ":" rest) m [("M"%char, m)]
    (String ":" rest).
Proof.
  intros Hd Hv. unfold first_match.
  destruct (number_shape m Hd) as [(a & -> & Ha) | (a & b & -> & Ha & Hb)].
  - apply is_digit_cases in Ha.
    enum_in Ha ltac:(first [ exfalso; cbn in Hv; lia | eexists; reflexivity ]).
  - apply is_digit_cases in Ha. apply is_digit_cases in Hb.
    enum_in Ha ltac:(enum_in Hb ltac:(first [ exfalso; cbn in Hv; lia
                                            | eexists; reflexivity ])).
Qed.

Lemma first_match_second_text (d s : string) :
  is_number d = true -> 0 <= value_of d <= 59 ->
  starts_with is_space s = true ->
  first_match (directive_re "S") (d ++ s) d [("S"%char, d)] s.
Proof.
  intros Hd Hv Hs. destruct s as [|c rest]; [discriminate|].
  cbn [starts_with] in Hs. unfold first_match.
  destruct (number_shape d Hd) as [(a & -> & Ha) | (a & b & -> & Ha & Hb)].
  - apply is_digit_cases in Ha. apply is_space_cases in Hs. cbn [map] in Hs.
    enum_in Ha ltac:(first [ exfalso; cbn in Hv; lia
                           | enum_in Hs ltac:(eexists; reflexivity) ]).
  - apply is_digit_cases in Ha. apply is_digit_cases in Hb.
    enum_in Ha ltac:(enum_in Hb ltac:(first [ exfalso; cbn in Hv; lia
                                            | eexists; reflexivity ])).
Qed.

Lemma first_match_year_text (y rest : string) :
  is_year y = true ->
  first_match (directive_re "Y") (y ++ rest) y [("Y"%char, y)] rest.
Proof.
  unfold is_year. intros H. apply andb_true_iff in H. destruct H as [Hd Hl].
  destruct y as [|a [|b [|c [|d [|e y']]]]]; try discriminate Hl.
  cbn [all_chars] in Hd. rewrite !andb_true_iff in Hd.
  destruct Hd as (Ha & Hb & Hc & Hd & _).
  now apply first_match_four_digits.
Qed.

Lemma number_starts (d s : string) :
  is_number d = true -> starts_with is_space (d ++ s) = false.
Proof.
  intros H. apply is_number_digits in H. destruct H as [H Hne].
  rewrite starts_with_app by exact Hne.
  destruct d as [|c d']; [congruence|].
  cbn [all_chars] in H. apply andb_true_iff in H. destruct H as [Hc _].
  cbn. now apply digit_not_space.
Qed.

Lemma year_starts (y s : string) :
  is_year y = true -> starts_with is_space (y ++ s) = false.
Proof.
  intros H. apply is_year_digits in H. destruct H as [H Hne].
  rewrite starts_with_app by exact Hne.
  destruct y as [|c d']; [congruence|].
  cbn [all_chars] in H. apply andb_true_iff in H. destruct H as [Hc _].
  cbn. now apply digit_not_space.
Qed.

Lemma name_starts (names : list string) (t s : string) :
  forallb (starts_with (fun c => negb (is_space c))) names = true ->
  is_name names t = true -> starts_with is_space (t ++ s) = false.
Proof.
  intros Hp Hn. pose proof Hn as Hn'. apply is_name_In in Hn'.
  rewrite forallb_forall in Hp. specialize (Hp _ Hn').
  destruct t as [|c t']; [discriminate Hp|].
  cbn [lower_str starts_with append] in *. rewrite lower_space in Hp.
  now apply negb_true_iff in Hp.
Qed.

Lemma spaces_start (w s : string) :
  is_spaces w = true -> starts_with is_space (w ++ s) = true.
Proof.
  unfold is_spaces. intros H. apply andb_true_iff in H. destruct H as [Hne H].
  destruct w as [|c w']; [discriminate|].
  cbn [all_chars] in H. apply andb_true_iff in H. now destruct H.
Qed.

(** The ranges of the numbers of a date and time the constructor takes. *)
Lemma datetime_new_ranges (y m d h mi s us : Z) (dt : datetime) :
  datetime_new y m d h mi s us = Ok dt ->
  check_date_fields y m d = true
  /\ 1 <= d <= 31 /\ 0 <= h <= 23 /\ 0 <= mi <= 59 /\ 0 <= s <= 59.
Proof.
  unfold datetime_new.
  destruct (check_date_fields y m d && check_time_fields h mi s us) eqn:E;
    [|discriminate].
  intros H. injection H as <-.
  pose proof (valid_datetime_ranges (mk_datetime y m d h mi s us) E) as R.
  apply andb_true_iff in E. cbn in R. intuition lia.
Qed.

(** Whatever has the lenient form is accepted. *)
Lemma http_date_to_dt_complete (s : string) (dt : datetime) :
  lenient_http_date s dt -> http_date_to_dt s = Ok dt.
Proof.
  intros H. destruct H as [wd ws1 d ws2 mon ws3 y ws4 h mi se ws5 z dt
    Hwd H1 Hd H2 Hmon H3 Hy H4 Hh Hmi Hse H5 Hz Hnew].
  destruct (datetime_new_ranges _ _ _ _ _ _ _ _ Hnew)
    as (Hdate & Rd & Rh & Rmi & Rse).
  assert (M : exists t g,
    first_match http_date_regex
      (wd ++ "," ++ ws1 ++ d ++ ws2 ++ mon ++ ws3 ++ y ++ ws4
       ++ h ++ ":" ++ mi ++ ":" ++ se ++ ws5 ++ z) t g ""
    /\ g = [("a"%char, wd); ("d"%char, d); ("b"%char, mon); ("Y"%char, y);
            ("H"%char, h); ("M"%char, mi); ("S"%char, se); ("Z"%char, z)]).
  { do 2 eexists. split.
    - unfold http_date_regex.
      eapply first_match_seq;
        [apply (first_match_names 3 a_weekday); [reflexivity | exact Hwd]|].
      eapply first_match_seq; [apply first_match_lit|].
      eapply first_match_seq;
        [apply first_match_spaces; [exact H1 | now apply number_starts]|].
      eapply first_match_seq;
        [apply first_match_day_text;
           [exact Hd | exact Rd | now apply spaces_start]|].
      eapply first_match_seq;
        [apply first_match_spaces;
           [exact H2 | apply (name_starts (tl a_month)); [reflexivity | exact Hmon]]|].
      eapply first_match_seq;
        [apply (first_match_names 3 (tl a_month)); [reflexivity | exact Hmon]|].
      eapply first_match_seq;
        [apply first_match_spaces; [exact H3 | now apply year_starts]|].
      eapply first_match_seq; [apply first_match_year_text; exact Hy|].
      eapply first_match_seq;
        [apply first_match_spaces; [exact H4 | now apply number_starts]|].
      eapply first_match_seq;
        [apply first_match_hour_text; [exact Hh | exact Rh]|].
      eapply first_match_seq; [apply first_match_lit|].
      eapply first_match_seq;
        [apply first_match_minute_text; [exact Hmi | exact Rmi]|].
      eapply first_match_seq; [apply first_match_lit|].
      eapply first_match_seq;
        [apply first_match_second_text;
           [exact Hse | exact Rse | now apply spaces_start]|].
      eapply first_match_seq;
        [apply first_match_spaces;
           [exact H5 |
            rewrite <- (append_nil_r z);
            apply (name_starts timezone_names); [reflexivity | exact Hz]]|].
      eapply first_match_seq;
        [rewrite <- (append_nil_r z) at 1;
         apply (first_match_names 3 timezone_names); [reflexivity | exact Hz]|].
      apply first_match_empty.
    - reflexivity. }
  destruct M as (t & g & [others Hm] & ->).
  unfold http_date_to_dt, strptime. rewrite pattern_http_date, Hm.
  cbn [set_fields set_field].
  destruct (index_is_name a_weekday wd Hwd) as [iw ->]. cbn [of_option bind].
  rewrite (py_int_number d Hd). cbn [bind].
  assert (Em : exists im, index (lower_str mon) a_month = Some im
                          /\ month_of mon = im).
  { unfold month_of.
    assert (Hmon' : is_name a_month mon = true).
    { apply is_name_In. right. now apply is_name_In. }
    destruct (index_is_name a_month mon Hmon') as [im ->]. eauto. }
  destruct Em as (im & -> & Eim). cbn [of_option bind].
  rewrite (py_int_year y Hy). cbn [bind].
  rewrite (py_int_number h Hh). cbn [bind].
  rewrite (py_int_number mi Hmi). cbn [bind].
  rewrite (py_int_number se Hse). cbn [bind].
  cbn [f_year f_month f_day f_hour f_minute f_second f_weekday].
  rewrite <- Eim, Hdate. exact Hnew.
Qed.

(** ** HTTP dates: what is rejected *)

Lemma py_int_error (text : string) (e : exn) :
  py_int text = Raise e -> e = ValueError.
Proof.
  unfold py_int. destruct (strip text); [congruence|].
  destruct (digits_value 0 _); cbn; congruence.
Qed.

Lemma set_field_error (f : fields) (kv : ascii * string) (e : exn) :
  set_field f kv = Raise e -> e = ValueError.
Proof.
  destruct kv as [k text]. unfold set_field.
  destruct k as [[] [] [] [] [] [] [] []]; try discriminate;
    try (destruct (py_int text) eqn:E; cbn [bind];
         [discriminate | intros H; injection H as <-;
                         exact (py_int_error _ _ E)]);
    destruct (index (lower_str text) _); cbn; congruence.
Qed.

Lemma set_fields_error (found : groups) :
  forall f e, set_fields f found = Raise e -> e = ValueError.
Proof.
  induction found as [|kv found IH]; intros f e; [discriminate|].
  cbn [set_fields]. destruct (set_field f kv) as [f'|e'] eqn:E; cbn [bind].
  - apply IH.
  - intros H. injection H as <-. exact (set_field_error _ _ _ E).
Qed.

(** The only exception of [http_date_to_dt] is [ValueError]. *)
Lemma http_date_to_dt_error (s : string) (e : exn) :
  http_date_to_dt s = Raise e -> e = ValueError.
Proof.
  unfold http_date_to_dt, strptime. rewrite pattern_http_date.
  destruct (rmatch http_date_regex s) as [|[[t g] rest] others];
    [congruence|].
  destruct rest; [|congruence].
  destruct (set_fields initial_fields g) as [f|e'] eqn:E; cbn [bind].
  - destruct (check_date_fields _ _ _); [|congruence].
    unfold datetime_new. destruct (_ && _); congruence.
  - intros H. injection H as <-. exact (set_fields_error _ _ _ E).
Qed.




(** ** HTTP dates: further properties *)





Lemma datetime_new_valid (y m d h mi s us : Z) (dt : datetime) :
  datetime_new y m d h mi s us = Ok dt ->
  valid_datetime dt /\ dt = mk_datetime y m d h mi s us.
Proof.
  unfold datetime_new.
  destruct (check_date_fields y m d && check_time_fields h mi s us) eqn:E;
    [|discriminate].
  intros H. injection H as <-. split; [exact E | reflexivity].
Qed.

Lemma http_date_to_dt_result (s : string) (dt : datetime) :
  http_date_to_dt s = Ok dt -> valid_datetime dt /\ microsecond dt = 0.
Proof.
  intros H. apply http_date_to_dt_sound in H. destruct H.
  match goal with
  | Hn : datetime_new _ _ _ _ _ _ _ = Ok _ |- _ =>
      apply datetime_new_valid in Hn; destruct Hn as [V ->]
  end.
  split; [exact V | reflexivity].
Qed.

(** X2.  Whatever [http_date_to_dt] returns is a timestamp the [datetime]
    constructor accepts (a real calendar date, a time of day with seconds up
    to 59), with zero microseconds. *)
Theorem http_date_to_dt_valid (s : string) (dt : datetime)
    (H : http_date_to_dt s = Ok dt) :
  valid_datetime dt /\ microsecond dt = 0.
Proof. exact (http_date_to_dt_result s dt H). Qed.

Lemma http_date_to_dt_valid_witness :
  valid_datetime (mk_datetime 1994 11 5 1 5 6 0)
  /\ microsecond (mk_datetime 1994 11 5 1 5 6 0) = 0.
Proof.
  exact (http_date_to_dt_valid "tue,  5 NOV 1994 1:05:6 utc"
           (mk_datetime 1994 11 5 1 5 6 0) eq_refl).
Defined.





(** *** Letter case *)

Lemma lower_str_app (a b : string) :
  lower_str (a ++ b) = lower_str a ++ lower_str b.
Proof. induction a as [|c a IH]; cbn; [reflexivity | now rewrite IH]. Qed.

Lemma lower_lower (c : ascii) : lower (lower c) = lower c.
Proof. destruct c as [[] [] [] [] [] [] [] []]; reflexivity. Qed.

Lemma lower_str_idem (t : string) : lower_str (lower_str t) = lower_str t.
Proof.
  induction t as [|c t IH]; cbn; [reflexivity | now rewrite IH, lower_lower].
Qed.

Lemma lower_digit (c : ascii) : is_digit (lower c) = is_digit c.
Proof. destruct c as [[] [] [] [] [] [] [] []]; reflexivity. Qed.

Lemma digit_lower (c : ascii) : is_digit c = true -> lower c = c.
Proof.
  destruct c as [[] [] [] [] [] [] [] []]; cbn; intros H;
    first [discriminate H | reflexivity].
Qed.

Lemma all_chars_lower (p : ascii -> bool) (t : string) :
  (forall c, p (lower c) = p c) ->
  all_chars p (lower_str t) = all_chars p t.
Proof.
  intros Hp. induction t as [|c t IH]; cbn; [reflexivity|].
  now rewrite Hp, IH.
Qed.

Lemma lower_str_empty (t : string) :
  String.eqb (lower_str t) "" = String.eqb t "".
Proof. destruct t; reflexivity. Qed.

Lemma is_spaces_lower (w : string) : is_spaces (lower_str w) = is_spaces w.
Proof.
  unfold is_spaces.
  now rewrite lower_str_empty, (all_chars_lower is_space w lower_space).
Qed.

Lemma is_number_lower (t : string) : is_number (lower_str t) = is_number t.
Proof.
  unfold is_number.
  now rewrite length_lower_str, (all_chars_lower is_digit t lower_digit).
Qed.

Lemma is_year_lower (t : string) : is_year (lower_str t) = is_year t.
Proof.
  unfold is_year.
  now rewrite length_lower_str, (all_chars_lower is_digit t lower_digit).
Qed.

Lemma is_name_lower (names : list string) (t : string) :
  is_name names (lower_str t) = is_name names t.
Proof. unfold is_name. now rewrite lower_str_idem. Qed.

Lemma digits_value_lower (t : string) :
  forall acc, digits_value acc (lower_str t) = digits_value acc t.
Proof.
  induction t as [|c t IH]; intros acc; [reflexivity|].
  cbn [lower_str digits_value]. rewrite lower_digit.
  destruct (is_digit c) eqn:E; [|reflexivity].
  now rewrite (digit_lower c E), IH.
Qed.

Lemma value_of_lower (t : string) : value_of (lower_str t) = value_of t.
Proof. unfold value_of. now rewrite digits_value_lower. Qed.

Lemma month_of_lower (t : string) : month_of (lower_str t) = month_of t.
Proof. unfold month_of. now rewrite lower_str_idem. Qed.

Lemma lower_str_split (s x y : string) :
  lower_str s = x ++ y ->
  exists a b, s = a ++ b /\ lower_str a = x /\ lower_str b = y.
Proof.
  revert s; induction x as [|c x IH]; intros s H.
  - exists "", s. auto.
  - destruct s as [|k s']; [discriminate|].
    cbn in H. injection H as Hc Hs.
    destruct (IH s' Hs) as (a & b & -> & Ea & Eb).
    exists (String k a), b. cbn. rewrite Hc, Ea. auto.
Qed.

Lemma lenient_lower (s : string) (dt : datetime) :
  lenient_http_date s dt -> lenient_http_date (lower_str s) dt.
Proof.
  intros H. destruct H.
  rewrite !lower_str_app.
  change (lower_str ",") with ",". change (lower_str ":") with ":".
  apply lenient_http_date_intro;
    rewrite ?is_name_lower, ?is_spaces_lower, ?is_number_lower,
      ?is_year_lower, ?value_of_lower, ?month_of_lower; assumption.
Qed.

Ltac split_lower H a b E :=
  apply lower_str_split in H; destruct H as (a & b & -> & E & H).

Lemma lower_str_mark (s : string) (c : ascii) (y : string) :
  In c [","; ":"]%char ->
  lower_str s = String c y ->
  exists b, s = String c b /\ lower_str b = y.
Proof.
  intros Hc H. destruct s as [|k s']; [discriminate|].
  cbn in H. injection H as Hk Hs.
  assert (k = c).
  { apply lower_plain; [cbn in *; tauto|].
    rewrite Hk. destruct Hc as [<-|[<-|[]]]; reflexivity. }
  subst k. eauto.
Qed.

Lemma lenient_of_lower (s : string) (dt : datetime) :
  lenient_http_date (lower_str s) dt -> lenient_http_date s dt.
Proof.
  intros H. remember (lower_str s) as ls eqn:E.
  destruct H as [wd ws1 d ws2 mon ws3 y ws4 h mi se ws5 z dt
    Hwd H1 Hd H2 Hmon H3 Hy H4 Hh Hmi Hse H5 Hz Hnew].
  symmetry in E.
  split_lower E wd' q0 Ewd.
  apply lower_str_mark in E; [|cbn; tauto].
  destruct E as (r1 & -> & E).
  split_lower E ws1' q1 E1. split_lower E d' q2 Ed.
  split_lower E ws2' q3 E2. split_lower E mon' q4 Emon.
  split_lower E ws3' q5 E3. split_lower E y' q6 Ey.
  split_lower E ws4' q7 E4. split_lower E h' q8 Eh.
  apply lower_str_mark in E; [|cbn; tauto].
  destruct E as (r2 & -> & E).
  split_lower E mi' q9 Emi.
  apply lower_str_mark in E; [|cbn; tauto].
  destruct E as (r3 & -> & E).
  split_lower E se' q10 Ese. split_lower E ws5' z' E5.
  subst.
  rewrite ?is_name_lower, ?is_spaces_lower, ?is_number_lower,
    ?is_year_lower, ?value_of_lower, ?month_of_lower in *.
  change (wd' ++ String "," (ws1' ++ d' ++ ws2' ++ mon' ++ ws3' ++ y' ++ ws4'
            ++ h' ++ String ":" (mi' ++ String ":" (se' ++ ws5' ++ z'))))
    with (wd' ++ "," ++ ws1' ++ d' ++ ws2' ++ mon' ++ ws3' ++ y' ++ ws4'
            ++ h' ++ ":" ++ mi' ++ ":" ++ se' ++ ws5' ++ z').
  now apply lenient_http_date_intro.
Qed.

Lemma http_date_to_dt_cases (s : string) :
  (exists dt, http_date_to_dt s = Ok dt) \/ http_date_to_dt s = Raise ValueError.
Proof.
  destruct (http_date_to_dt s) as [dt|e] eqn:E; [eauto|].
  right. now rewrite (http_date_to_dt_error s e E).
Qed.

(** Two texts with the same lenient readings parse alike. *)
Lemma http_date_to_dt_ext (s1 s2 : string) :
  (forall dt, lenient_http_date s1 dt <-> lenient_http_date s2 dt) ->
  http_date_to_dt s1 = http_date_to_dt s2.
Proof.
  intros H.
  destruct (http_date_to_dt_cases s1) as [[dt E1]|E1].
  - rewrite E1. symmetry. apply http_date_to_dt_complete, H.
    now apply http_date_to_dt_sound.
  - destruct (http_date_to_dt_cases s2) as [[dt E2]|E2]; [|congruence].
    apply http_date_to_dt_sound, H, http_date_to_dt_complete in E2.
    congruence.
Qed.

(** X5.  Letter case does not matter to [http_date_to_dt]: two texts that
    differ only in the case of their letters have the same result, be it a
    timestamp or the error. *)
Theorem http_date_to_dt_ignores_case (s1 s2 : string)
    (H : lower_str s1 = lower_str s2) :
  http_date_to_dt s1 = http_date_to_dt s2.
Proof.
  apply http_date_to_dt_ext. intros dt. split; intros L.
  - apply lenient_of_lower. rewrite <- H. now apply lenient_lower.
  - apply lenient_of_lower. rewrite H. now apply lenient_lower.
Qed.

Lemma http_date_to_dt_ignores_case_witness :
  http_date_to_dt "TUE, 15 NOV 1994 12:45:26 gmt"
  = http_date_to_dt "Tue, 15 Nov 1994 12:45:26 GMT".
Proof.
  exact (http_date_to_dt_ignores_case "TUE, 15 NOV 1994 12:45:26 gmt"
           "Tue, 15 Nov 1994 12:45:26 GMT" eq_refl).
Defined.

(** *** The weekday *)

Lemma name_length (n : nat) (names : list string) (t : string) :
  plain_names n names = true -> is_name names t = true -> String.length t = n.
Proof.
  intros Hp Hn. apply is_name_In in Hn.
  unfold plain_names in Hp. rewrite forallb_forall in Hp.
  specialize (Hp _ Hn). rewrite !andb_true_iff in Hp.
  destruct Hp as [[Hl _] _]. apply Nat.eqb_eq in Hl.
  now rewrite length_lower_str in Hl.
Qed.

Lemma append_inj (a c b d : string) :
  a ++ b = c ++ d -> String.length a = String.length c -> a = c /\ b = d.
Proof.
  revert c; induction a as [|x a IH]; intros [|y c] H L; try discriminate L.
  - auto.
  - cbn in H, L. injection H as -> H. injection L as L.
    destruct (IH c H L) as [-> ->]. auto.
Qed.

Lemma lenient_weekday_swap (wd1 wd2 rest : string) (dt : datetime) :
  is_name a_weekday wd1 = true -> is_name a_weekday wd2 = true ->
  lenient_http_date (wd1 ++ rest) dt -> lenient_http_date (wd2 ++ rest) dt.
Proof.
  intros N1 N2 H. remember (wd1 ++ rest) as s eqn:E.
  destruct H as [wd ws1 d ws2 mon ws3 y ws4 h mi se ws5 z dt
    Hwd H1 Hd H2 Hmon H3 Hy H4 Hh Hmi Hse H5 Hz Hnew].
  apply append_inj in E.
  - destruct E as [-> <-]. now apply lenient_http_date_intro.
  - rewrite (name_length 3 a_weekday wd), (name_length 3 a_weekday wd1);
      auto.
Qed.

(** X6.  The weekday is not checked against the date: with any other
    weekday name in its place a text has the same result. *)
Theorem http_date_to_dt_ignores_weekday (wd1 wd2 rest : string)
    (N1 : is_name a_weekday wd1 = true) (N2 : is_name a_weekday wd2 = true) :
  http_date_to_dt (wd1 ++ rest) = http_date_to_dt (wd2 ++ rest).
Proof.
  apply http_date_to_dt_ext. intros dt.
  split; now apply lenient_weekday_swap.
Qed.

Lemma http_date_to_dt_ignores_weekday_witness :
  http_date_to_dt ("Sun" ++ ", 15 Nov 1994 12:45:26 GMT")
  = http_date_to_dt ("Tue" ++ ", 15 Nov 1994 12:45:26 GMT").
Proof.
  exact (http_date_to_dt_ignores_weekday "Sun" "Tue"
           ", 15 Nov 1994 12:45:26 GMT" eq_refl eq_refl).
Defined.

(** *** White space around the text *)

Lemma last_char_app (a b : string) :
  b <> "" -> last_char (a ++ b) = last_char b.
Proof.
  intros Hb. induction a as [|c a IH]; [reflexivity|].
  cbn [append last_char]. rewrite IH.
  destruct (a ++ b) eqn:E; [|reflexivity].
  destruct a; cbn in E; [congruence | discriminate].
Qed.

Lemma append_not_empty (a b : string) : b <> "" -> a ++ b <> "".
Proof. destruct a; cbn; [auto | discriminate]. Qed.

Lemma zone_last_char (z : string) :
  is_name timezone_names z = true ->
  z <> "" /\ exists c, last_char z = Some c /\ is_space c = false.
Proof.
  intros H. apply is_name_In in H.
  destruct z as [|a [|b [|c [|d z']]]];
    try (cbn in H; intuition discriminate).
  split; [discriminate|]. exists c. split; [reflexivity|].
  rewrite <- lower_space.
  cbn in H. destruct H as [H|[H|[]]]; injection H as _ _ <-; reflexivity.
Qed.

Lemma lenient_last_char (s : string) (dt : datetime) :
  lenient_http_date s dt ->
  exists c, last_char s = Some c /\ is_space c = false.
Proof.
  intros H. destruct H as [wd ws1 d ws2 mon ws3 y ws4 h mi se ws5 z dt
    Hwd H1 Hd H2 Hmon H3 Hy H4 Hh Hmi Hse H5 Hz Hnew].
  destruct (zone_last_char z Hz) as [Hne Hc].
  rewrite !last_char_app by (repeat apply append_not_empty; exact Hne).
  exact Hc.
Qed.

Lemma lenient_first_char (s : string) (dt : datetime) :
  lenient_http_date s dt -> starts_with is_space s = false.
Proof.
  intros H. destruct H.
  apply (name_starts a_weekday); [reflexivity | assumption].
Qed.

(** X7.  White space before or after the date is not tolerated: a text that
    begins or ends with a white-space character, and the empty text, fail
    with [ValueError]. *)
Theorem http_date_to_dt_rejects_padding (c : ascii) (s : string)
    (H : is_space c = true) :
  http_date_to_dt (String c s) = Raise ValueError
  /\ http_date_to_dt (s ++ String c "") = Raise ValueError
  /\ http_date_to_dt "" = Raise ValueError.
Proof.
  split; [|split; [|reflexivity]].
  - destruct (http_date_to_dt_cases (String c s)) as [[dt E]|E]; [|exact E].
    apply http_date_to_dt_sound, lenient_first_char in E.
    cbn in E. congruence.
  - destruct (http_date_to_dt_cases (s ++ String c "")) as [[dt E]|E];
      [|exact E].
    apply http_date_to_dt_sound, lenient_last_char in E.
    destruct E as (k & Ek & Hk).
    rewrite last_char_app in Ek by discriminate.
    cbn in Ek. injection Ek as <-. congruence.
Qed.

Lemma http_date_to_dt_rejects_padding_witness :
  http_date_to_dt (String " " "Tue, 15 Nov 1994 12:45:26 GMT")
  = Raise ValueError
  /\ http_date_to_dt ("Tue, 15 Nov 1994 12:45:26 GMT" ++ String " " "")
     = Raise ValueError
  /\ http_date_to_dt "" = Raise ValueError.
Proof.
  exact (http_date_to_dt_rejects_padding " " "Tue, 15 Nov 1994 12:45:26 GMT"
           eq_refl).
Defined.

(** ** Percent escaping: further properties *)

Ltac nlia := zify; Z.to_euclidean_division_equations; lia.

Lemma code_byte_of (n : N) : (n < 256)%N -> code (byte_of n) = n.
Proof. intros H. unfold code, byte_of. now apply N_ascii_embedding. Qed.

Lemma div_4096 (cp : N) : (cp / 4096 = cp / 64 / 64)%N.
Proof. now rewrite N.Div0.div_div. Qed.

Lemma div_262144 (cp : N) : (cp / 262144 = cp / 64 / 64 / 64)%N.
Proof. now rewrite !N.Div0.div_div. Qed.

Ltac decide_ltb :=
  repeat match goal with
  | |- context [(?a <? ?b)%N] =>
      destruct (N.ltb_spec a b); try (exfalso; lia)
  | |- context [(?a <=? ?b)%N] =>
      destruct (N.leb_spec a b); try (exfalso; lia)
  | |- context [(?a =? ?b)%N] =>
      destruct (N.eqb_spec a b); try (exfalso; lia)
  end.

Lemma Ok_inj (A : Type) (a b : A) : Ok a = Ok b -> a = b.
Proof. congruence. Qed.

Lemma split_two (cp : N) :
  exists a c, (cp / 64 = a /\ cp mod 64 = c /\ cp = a * 64 + c /\ c < 64)%N.
Proof. do 2 eexists. repeat split; nlia. Qed.

Lemma split_three (cp : N) :
  exists a b c,
    (cp / 64 / 64 = a /\ (cp / 64) mod 64 = b /\ cp mod 64 = c
     /\ cp = a * 4096 + b * 64 + c /\ b < 64 /\ c < 64)%N.
Proof. do 3 eexists. repeat split; nlia. Qed.

Lemma split_four (cp : N) :
  exists a b c d,
    (cp / 64 / 64 / 64 = a /\ (cp / 64 / 64) mod 64 = b
     /\ (cp / 64) mod 64 = c /\ cp mod 64 = d
     /\ cp = a * 262144 + b * 4096 + c * 64 + d
     /\ b < 64 /\ c < 64 /\ d < 64)%N.
Proof. do 4 eexists. repeat split; nlia. Qed.

(** Decoding the UTF-8 bytes of a character gives the character. *)
Lemma utf8_decode_encode_char (errors : error_policy) (cp : N) (bs rest : bytes) :
  utf8_encode_char cp = Ok bs ->
  utf8_decode errors (bs ++ rest)%list
  = (r <- utf8_decode errors rest ;; Ok (cp :: r)).
Proof.
  unfold utf8_encode_char.
  destruct (N.ltb_spec cp 128) as [H1|H1].
  { intros E. apply Ok_inj in E. subst bs. cbn [app utf8_decode].
    rewrite code_byte_of by lia.
    destruct (N.ltb_spec cp 128); [reflexivity | lia]. }
  destruct (N.ltb_spec cp 2048) as [H2|H2].
  { intros E. apply Ok_inj in E. subst bs. cbn [app utf8_decode].
    unfold is_continuation.
    destruct (split_two cp) as (a & c & -> & -> & Hcp & Hc).
    rewrite !code_byte_of by lia.
    decide_ltb. cbn [andb].
    destruct (utf8_decode errors rest); cbn [bind]; [|reflexivity].
    do 2 f_equal. lia. }
  destruct ((55296 <=? cp)%N && (cp <=? 57343)%N) eqn:Hs; [discriminate|].
  assert (Hsur : (cp < 55296 \/ 57343 < cp)%N).
  { apply andb_false_iff in Hs. destruct Hs as [Hs|Hs];
      [apply N.leb_gt in Hs | apply N.leb_gt in Hs]; lia. }
  clear Hs.
  destruct (N.ltb_spec cp 65536) as [H3|H3].
  { intros E. apply Ok_inj in E. subst bs. cbn [app utf8_decode].
    unfold second_ok, is_continuation. rewrite div_4096.
    destruct (split_three cp) as (a & b & c & -> & -> & -> & Hcp & Hb & Hc).
    rewrite !code_byte_of by lia.
    decide_ltb; cbn [andb negb];
      (destruct (utf8_decode errors rest); cbn [bind]; [|reflexivity]);
      do 2 f_equal; lia. }
  destruct (N.ltb_spec cp 1114112) as [H4|H4]; [|discriminate].
  intros E. apply Ok_inj in E. subst bs. cbn [app utf8_decode].
  unfold second_ok, is_continuation. rewrite div_262144, div_4096.
  destruct (split_four cp)
    as (a & b & c & d & -> & -> & -> & -> & Hcp & Hb & Hc & Hd).
  rewrite !code_byte_of by lia.
  decide_ltb; cbn [andb negb];
    (destruct (utf8_decode errors rest); cbn [bind]; [|reflexivity]);
    do 2 f_equal; lia.
Qed.

Lemma utf8_decode_encode (errors : error_policy) (s : text) :
  forall bs, utf8_encode s = Ok bs -> utf8_decode errors bs = Ok s.
Proof.
  induction s as [|cp s IH]; intros bs H.
  - apply Ok_inj in H. now subst.
  - cbn [utf8_encode] in H.
    destruct (utf8_encode_char cp) as [b|e] eqn:Ec; [|discriminate].
    destruct (utf8_encode s) as [bs'|e] eqn:Es; [|discriminate].
    cbn [bind] in H. apply Ok_inj in H. subst bs.
    rewrite (utf8_decode_encode_char errors cp b bs' Ec).
    now rewrite (IH bs' eq_refl).
Qed.

Lemma unquote_to_bytes_plain (bs : bytes) :
  forallb (fun b => negb (Ascii.eqb b "%")) bs = true ->
  unquote_to_bytes bs = bs.
Proof.
  induction bs as [|b bs IH]; [reflexivity|].
  cbn [forallb]. intros H. apply andb_true_iff in H. destruct H as [Hb Hr].
  cbn [unquote_to_bytes]. apply negb_true_iff in Hb. rewrite Hb.
  now rewrite IH.
Qed.

Lemma utf8_decode_ascii (errors : error_policy) (bs : bytes) :
  forallb (fun b => code b <? 128)%N bs = true ->
  utf8_decode errors bs = Ok (map code bs).
Proof.
  induction bs as [|b bs IH]; [reflexivity|].
  cbn [forallb]. intros H. apply andb_true_iff in H. destruct H as [Hb Hr].
  cbn [utf8_decode]. rewrite Hb, (IH Hr). reflexivity.
Qed.

Lemma ascii_bytes (r : text) :
  forallb (fun cp => cp <? 128)%N r = true ->
  forallb (fun b => code b <? 128)%N (map byte_of r) = true
  /\ map code (map byte_of r) = r.
Proof.
  induction r as [|cp r IH]; [auto|].
  cbn [forallb map]. intros H. apply andb_true_iff in H.
  destruct H as [Hc Hr]. destruct (IH Hr) as [IH1 IH2].
  apply N.ltb_lt in Hc.
  rewrite code_byte_of by lia. rewrite IH1, IH2.
  split; [|reflexivity]. apply andb_true_iff. split; [|reflexivity].
  now apply N.ltb_lt.
Qed.

Lemma no_percent_bytes (r : text) :
  forallb (fun cp => cp <? 128)%N r = true ->
  existsb (N.eqb 37) r = false ->
  forallb (fun b => negb (Ascii.eqb b "%")) (map byte_of r) = true.
Proof.
  induction r as [|cp r IH]; [reflexivity|].
  cbn [forallb existsb map]. intros H E.
  apply andb_true_iff in H. destruct H as [Hc Hr].
  apply orb_false_iff in E. destruct E as [E1 E2].
  rewrite (IH Hr E2), andb_true_r.
  apply negb_true_iff. apply Ascii.eqb_neq. intros Hb.
  apply N.ltb_lt in Hc. apply N.eqb_neq in E1. apply E1.
  rewrite <- (code_byte_of cp) by lia. now rewrite Hb.
Qed.

(** On ASCII text, [unquote] is: unquote to bytes, then decode. *)
Lemma unquote_ascii (errors : error_policy) (r : text) :
  forallb (fun cp => cp <? 128)%N r = true ->
  unquote r errors = utf8_decode errors (unquote_to_bytes (map byte_of r)).
Proof.
  intros H. unfold unquote.
  destruct (existsb (N.eqb 37) r) eqn:E; cbn [negb].
  - rewrite unquote_parts_ascii by exact H.
    now rewrite unquote_run_eq, app_nil_r, rev_involutive.
  - rewrite unquote_to_bytes_plain by now apply no_percent_bytes.
    destruct (ascii_bytes r H) as [H1 H2].
    now rewrite utf8_decode_ascii, H2.
Qed.

Lemma described_escape_ascii (b : ascii) :
  forallb (fun cp => cp <? 128)%N (described_escape b) = true.
Proof. destruct b as [[] [] [] [] [] [] [] []]; reflexivity. Qed.

Lemma described_escape_no_plus (b : ascii) :
  replace_plus (described_escape b) = described_escape b.
Proof. destruct b as [[] [] [] [] [] [] [] []]; reflexivity. Qed.

Lemma unquote_described_escape (b : ascii) (rest : bytes) :
  unquote_to_bytes (map byte_of (described_escape b) ++ rest)%list
  = b :: unquote_to_bytes rest.
Proof. destruct b as [[] [] [] [] [] [] [] []]; reflexivity. Qed.

Lemma escaped_facts (bs : bytes) :
  forallb (fun cp => cp <? 128)%N (flat_map described_escape bs) = true
  /\ replace_plus (flat_map described_escape bs) = flat_map described_escape bs
  /\ unquote_to_bytes (map byte_of (flat_map described_escape bs)) = bs.
Proof.
  induction bs as [|b bs (IH1 & IH2 & IH3)]; [auto|].
  cbn [flat_map]. repeat split.
  - now rewrite forallb_app, described_escape_ascii, IH1.
  - pose proof (described_escape_no_plus b) as Hb.
    unfold replace_plus in *. now rewrite map_app, IH2, Hb.
  - now rewrite map_app, unquote_described_escape, IH3.
Qed.

Lemma percent_escape_bytes (url r : text) :
  percent_escape url = Ok r ->
  exists bs, utf8_encode url = Ok bs /\ r = flat_map described_escape bs.
Proof.
  unfold percent_escape, quote.
  destruct (utf8_encode url) as [bs|e]; cbn [bind]; [|discriminate].
  intros H. apply Ok_inj in H. exists bs. split; [reflexivity|].
  now rewrite <- flat_map_quoter.
Qed.

Lemma percent_unescape_of_escape (url r : text) :
  percent_escape url = Ok r -> percent_unescape r = Ok url.
Proof.
  intros H. destruct (percent_escape_bytes url r H) as (bs & Hbs & ->).
  destruct (escaped_facts bs) as (Ha & Hp & Hu).
  unfold percent_unescape, unquote_plus.
  rewrite Hp, (unquote_ascii Replace _ Ha), Hu.
  now apply utf8_decode_encode.
Qed.

(** X8.  Unescaping what [percent_escape] returned gives the text back,
    and escaping that again gives the same escaped text: on its own output
    [percent_unescape] is the inverse of [percent_escape]. *)
Theorem percent_unescape_escape (url r : text)
    (H : percent_escape url = Ok r) :
  percent_unescape r = Ok url
  /\ (s <- percent_unescape r ;; percent_escape s) = Ok r.
Proof.
  pose proof (percent_unescape_of_escape url r H) as E.
  split; [exact E|]. rewrite E. exact H.
Qed.

Lemma percent_unescape_escape_witness :
  percent_unescape (text_of "caf%C3%A9%20%2B%25/a:b")
  = Ok [99; 97; 102; 233; 32; 43; 37; 47; 97; 58; 98]%N
  /\ (s <- percent_unescape (text_of "caf%C3%A9%20%2B%25/a:b") ;;
      percent_escape s) = Ok (text_of "caf%C3%A9%20%2B%25/a:b").
Proof.
  exact (percent_unescape_escape
           [99; 97; 102; 233; 32; 43; 37; 47; 97; 58; 98]%N
           (text_of "caf%C3%A9%20%2B%25/a:b") eq_refl).
Defined.

(** X9.  [percent_escape] never gives two texts the same escaped form. *)
Theorem percent_escape_injective (a b r : text)
    (Ha : percent_escape a = Ok r) (Hb : percent_escape b = Ok r) :
  a = b.
Proof.
  pose proof (percent_unescape_of_escape a r Ha) as Ea.
  pose proof (percent_unescape_of_escape b r Hb) as Eb.
  congruence.
Qed.

Lemma percent_escape_injective_witness : [233%N] = [233%N].
Proof.
  exact (percent_escape_injective [233%N] [233%N] (text_of "%C3%A9")
           eq_refl eq_refl).
Defined.

Lemma utf8_encode_char_scalar (cp : N) :
  match utf8_encode_char cp with
  | Ok _ => is_scalar cp = true
  | Raise e => e = UnicodeEncodeError /\ is_scalar cp = false
  end.
Proof.
  unfold utf8_encode_char, is_scalar.
  destruct (N.ltb_spec cp 128); [decide_ltb; reflexivity|].
  destruct (N.ltb_spec cp 2048); [decide_ltb; reflexivity|].
  destruct (N.leb_spec 55296 cp); destruct (N.leb_spec cp 57343); cbn [andb];
    decide_ltb; auto.
Qed.

Lemma utf8_encode_scalar (url : text) :
  match utf8_encode url with
  | Ok _ => forallb is_scalar url = true
  | Raise e => e = UnicodeEncodeError /\ forallb is_scalar url = false
  end.
Proof.
  induction url as [|cp url IH]; [reflexivity|].
  cbn [utf8_encode forallb].
  pose proof (utf8_encode_char_scalar cp) as Hc.
  destruct (utf8_encode_char cp) as [b|e]; cbn [bind].
  - rewrite Hc. destruct (utf8_encode url) as [bs|e]; cbn [bind].
    + exact IH.
    + destruct IH as [-> ->]. auto.
  - destruct Hc as [-> ->]. auto.
Qed.

(** X10.  [percent_escape] fails exactly on a text that holds a code point
    that is no character (a lone surrogate), and then with
    [UnicodeEncodeError]; every other text is escaped. *)
Theorem percent_escape_error (url : text) :
  match percent_escape url with
  | Ok _ => forallb is_scalar url = true
  | Raise e => e = UnicodeEncodeError /\ forallb is_scalar url = false
  end.
Proof.
  unfold percent_escape, quote.
  pose proof (utf8_encode_scalar url) as H.
  destruct (utf8_encode url) as [bs|e]; cbn [bind]; exact H.
Qed.

Lemma described_escape_alphabet (b : ascii) :
  forallb (fun cp => (cp <? 128)%N
                     && (unreserved cp || in_safe_set cp || (cp =? 37)%N))
    (described_escape b) = true.
Proof. destruct b as [[] [] [] [] [] [] [] []]; reflexivity. Qed.

(** X11.  The text [percent_escape] returns is ASCII and holds nothing but
    letters, digits, [- . _ ~], the safe set [/ : , = ? & - _] and ['%']:
    no space, no ['+'], no quote or bracket. *)
Theorem percent_escape_alphabet (url : text) :
  match percent_escape url with
  | Ok r =>
      forallb (fun cp => (cp <? 128)%N
                         && (unreserved cp || in_safe_set cp || (cp =? 37)%N))
        r = true
  | Raise _ => True
  end.
Proof.
  destruct (percent_escape url) as [r|e] eqn:E; [|exact I].
  destruct (percent_escape_bytes url r E) as (bs & _ & ->). clear E.
  induction bs as [|b bs IH]; [reflexivity|].
  cbn [flat_map]. now rewrite forallb_app, described_escape_alphabet, IH.
Qed.

Lemma utf8_encode_app (a b : text) :
  utf8_encode (a ++ b)%list
  = (x <- utf8_encode a ;; y <- utf8_encode b ;; Ok (x ++ y)%list).
Proof.
  induction a as [|cp a IH]; cbn [app utf8_encode bind].
  - destruct (utf8_encode b); reflexivity.
  - destruct (utf8_encode_char cp) as [c|e]; cbn [bind]; [|reflexivity].
    rewrite IH. destruct (utf8_encode a) as [x|e]; cbn [bind]; [|reflexivity].
    destruct (utf8_encode b) as [y|e]; cbn [bind]; [|reflexivity].
    now rewrite app_assoc.
Qed.

Lemma percent_escape_append (a b : text) :
  percent_escape (a ++ b)%list
  = (x <- percent_escape a ;; y <- percent_escape b ;; Ok (x ++ y)%list).
Proof.
  unfold percent_escape, quote. rewrite utf8_encode_app.
  destruct (utf8_encode a) as [x|e]; cbn [bind]; [|reflexivity].
  destruct (utf8_encode b) as [y|e]; cbn [bind]; [|reflexivity].
  unfold quote_from_bytes. now rewrite flat_map_app.
Qed.

(** X12.  Escaping a text made of two parts is escaping the parts and
    putting the results together; it fails when one of the parts does. *)
Theorem percent_escape_app (a b : text) :
  percent_escape (a ++ b)%list
  = (x <- percent_escape a ;; y <- percent_escape b ;; Ok (x ++ y)%list).
Proof. exact (percent_escape_append a b). Qed.

Lemma kept_ascii (cp : N) :
  unreserved cp || in_safe_set cp = true -> (cp < 128)%N.
Proof.
  unfold unreserved, in_safe_set.
  rewrite !orb_true_iff, !andb_true_iff, !N.leb_le, !N.eqb_eq. lia.
Qed.

Lemma percent_escape_cons (cp : N) (t : text) :
  percent_escape (cp :: t)
  = (x <- percent_escape [cp] ;; y <- percent_escape t ;; Ok (x ++ y)%list).
Proof. exact (percent_escape_append [cp] t). Qed.

Lemma described_escape_high (b : ascii) :
  (128 <= code b)%N -> described_escape b = percent_hex b.
Proof.
  intros H. unfold described_escape.
  destruct (unreserved (code b) || in_safe_set (code b)) eqn:E;
    [|reflexivity].
  apply kept_ascii in E. lia.
Qed.

(** What one character is escaped to: itself, or a text that starts with
    ['%'] and two more characters. *)
Lemma percent_escape_char (cp : N) (x : text) :
  percent_escape [cp] = Ok x ->
  (unreserved cp || in_safe_set cp = true /\ x = [cp])
  \/ (unreserved cp || in_safe_set cp = false
      /\ exists h l rest, x = 37%N :: h :: l :: rest).
Proof.
  intros H. destruct (percent_escape_bytes _ _ H) as (bs & Hbs & ->).
  cbn [utf8_encode] in Hbs.
  destruct (utf8_encode_char cp) as [b|e] eqn:Ec; [|discriminate].
  cbn [bind] in Hbs. apply Ok_inj in Hbs. rewrite app_nil_r in Hbs. subst bs.
  unfold utf8_encode_char in Ec.
  destruct (N.ltb_spec cp 128) as [H1|H1].
  - apply Ok_inj in Ec. subst b. cbn [flat_map]. rewrite app_nil_r.
    unfold described_escape. rewrite code_byte_of by lia.
    destruct (unreserved cp || in_safe_set cp); [left; auto|].
    right. split; [reflexivity|]. unfold percent_hex. eauto.
  - right. split.
    { destruct (unreserved cp || in_safe_set cp) eqn:E; [|reflexivity].
      apply kept_ascii in E. lia. }
    assert (Hb : exists b0 b', b = b0 :: b' /\ (128 <= code b0)%N).
    { destruct (N.ltb_spec cp 2048).
      { apply Ok_inj in Ec. subst b. do 2 eexists. split; [reflexivity|].
        destruct (split_two cp) as (a & c & -> & _ & Hcp & Hc).
        rewrite code_byte_of by lia. lia. }
      destruct ((55296 <=? cp)%N && (cp <=? 57343)%N); [discriminate|].
      destruct (N.ltb_spec cp 65536).
      { apply Ok_inj in Ec. subst b. do 2 eexists. split; [reflexivity|].
        rewrite div_4096.
        destruct (split_three cp) as (a & b & c & -> & _ & _ & Hcp & Hb & Hc).
        rewrite code_byte_of by lia. lia. }
      destruct (N.ltb_spec cp 1114112); [|discriminate].
      apply Ok_inj in Ec. subst b. do 2 eexists. split; [reflexivity|].
      rewrite div_262144.
      destruct (split_four cp)
        as (a & b & c & d & -> & _ & _ & _ & Hcp & Hb & Hc & Hd).
      rewrite code_byte_of by lia. lia. }
    destruct Hb as (b0 & b' & -> & Hb0).
    cbn [flat_map]. rewrite (described_escape_high b0 Hb0).
    unfold percent_hex. cbn [app]. eauto.
Qed.

Lemma percent_escape_length (t : text) :
  forall r, percent_escape t = Ok r -> (length t <= length r)%nat.
Proof.
  induction t as [|cp t IH]; intros r H; [cbn; lia|].
  rewrite percent_escape_cons in H.
  destruct (percent_escape [cp]) as [x|e] eqn:Ex; [|discriminate].
  destruct (percent_escape t) as [y|e] eqn:Ey; [|discriminate].
  cbn [bind] in H. apply Ok_inj in H. subst r.
  specialize (IH y eq_refl). rewrite length_app. cbn [length].
  destruct (percent_escape_char cp x Ex) as [[_ ->]|[_ (h & l & rest & ->)]];
    cbn [length]; lia.
Qed.

(** X13.  The texts [percent_escape] leaves as they are, are exactly those
    made of letters, digits, [- . _ ~] and the safe set: on any other text
    it changes something, so escaping an escaped text escapes it again. *)
Theorem percent_escape_fixed_point (t : text) :
  percent_escape t = Ok t
  <-> forallb (fun cp => unreserved cp || in_safe_set cp) t = true.
Proof.
  induction t as [|cp t IH]; [split; reflexivity|].
  rewrite percent_escape_cons. cbn [forallb]. split.
  - destruct (percent_escape [cp]) as [x|e] eqn:Ex; [|discriminate].
    destruct (percent_escape t) as [y|e] eqn:Ey; [|discriminate].
    cbn [bind]. intros H. apply Ok_inj in H.
    destruct (percent_escape_char cp x Ex) as [[K ->]|[_ (h & l & rest & ->)]].
    + cbn [app] in H. injection H as ->. rewrite K. now apply IH.
    + cbn [app] in H. injection H as _ H.
      pose proof (percent_escape_length t y Ey) as L.
      rewrite <- H in L. cbn [length] in L. rewrite length_app in L. lia.
  - intros H. apply andb_true_iff in H. destruct H as [K Ht].
    apply IH in Ht. rewrite Ht.
    assert (Ex : percent_escape [cp] = Ok [cp]).
    { pose proof (kept_ascii cp K) as Hlt.
      unfold percent_escape, quote. cbn [utf8_encode].
      unfold utf8_encode_char. apply N.ltb_lt in Hlt. rewrite Hlt.
      cbn [bind app]. rewrite flat_map_quoter. cbn [flat_map].
      unfold described_escape. apply N.ltb_lt in Hlt.
      rewrite code_byte_of by lia. now rewrite K. }
    rewrite Ex. reflexivity.
Qed.

(** *** Unescaping around characters beyond ASCII *)

Lemma plain_run_decode (errors : error_policy) (run : bytes) :
  forallb (fun b => (code b <? 128)%N && negb (Ascii.eqb b "%")) run = true ->
  unquote_run errors run = Ok (map code (rev run)).
Proof.
  intros H. rewrite unquote_run_eq.
  assert (H' : forallb (fun b => (code b <? 128)%N && negb (Ascii.eqb b "%"))
                 (rev run) = true).
  { rewrite forallb_forall in *. intros b Hb. apply H. now apply in_rev. }
  rewrite unquote_to_bytes_plain.
  - apply utf8_decode_ascii. rewrite forallb_forall in *. intros b Hb.
    specialize (H' b Hb). now apply andb_true_iff in H'.
  - rewrite forallb_forall in *. intros b Hb.
    specialize (H' b Hb). now apply andb_true_iff in H'.
Qed.

Lemma unquote_parts_plain (errors : error_policy) (s : text) :
  forall run,
    existsb (N.eqb 37) s = false ->
    forallb (fun b => (code b <? 128)%N && negb (Ascii.eqb b "%")) run = true ->
    unquote_parts errors run s = Ok (map code (rev run) ++ s)%list.
Proof.
  induction s as [|cp s IH]; intros run Hs Hrun; cbn [unquote_parts].
  - rewrite app_nil_r. now apply plain_run_decode.
  - cbn [existsb] in Hs. apply orb_false_iff in Hs. destruct Hs as [Hcp Hs].
    destruct (N.ltb_spec cp 128) as [Hlt|Hge].
    + rewrite IH; [| exact Hs |].
      * cbn [rev]. rewrite map_app, <- app_assoc. cbn [map app].
        now rewrite code_byte_of by lia.
      * cbn [forallb]. rewrite Hrun, andb_true_r.
        rewrite code_byte_of by lia.
        apply andb_true_iff. split; [now apply N.ltb_lt|].
        apply negb_true_iff, Ascii.eqb_neq. intros Hb.
        apply N.eqb_neq in Hcp. apply Hcp.
        rewrite <- (code_byte_of cp) by lia. now rewrite Hb.
    + rewrite (plain_run_decode errors run Hrun). cbn [bind].
      rewrite (IH [] Hs eq_refl). reflexivity.
Qed.

(** The shortcut of [unquote] for a text without ['%'] changes nothing. *)
Lemma unquote_eq_parts (errors : error_policy) (s : text) :
  unquote s errors = unquote_parts errors [] s.
Proof.
  unfold unquote. destruct (existsb (N.eqb 37) s) eqn:E; cbn [negb];
    [reflexivity|].
  now rewrite (unquote_parts_plain errors s [] E eq_refl).
Qed.

Lemma bind_assoc (A B C : Type) (m : result A) (f : A -> result B)
    (g : B -> result C) :
  (y <- (x <- m ;; f x) ;; g y) = (x <- m ;; y <- f x ;; g y).
Proof. destruct m; reflexivity. Qed.

Lemma unquote_parts_split (errors : error_policy) (a : text) (cp : N)
    (b : text) :
  (128 <= cp)%N ->
  forall run,
    unquote_parts errors run (a ++ cp :: b)%list
    = (d <- unquote_parts errors run a ;;
       r <- unquote_parts errors [] b ;; Ok (d ++ cp :: r)%list).
Proof.
  intros Hcp. induction a as [|c a IH]; intros run; cbn [app unquote_parts].
  - destruct (N.ltb_spec cp 128); [lia | reflexivity].
  - destruct (c <? 128)%N; [apply IH|].
    rewrite IH.
    destruct (unquote_run errors run) as [d|e]; cbn [bind]; [|reflexivity].
    destruct (unquote_parts errors [] a) as [x|e]; cbn [bind]; [|reflexivity].
    destruct (unquote_parts errors [] b) as [y|e]; cbn [bind]; [|reflexivity].
    now rewrite <- app_assoc.
Qed.

(** X14.  A character beyond ASCII in the input of [percent_unescape] goes
    through as it is and keeps what stands before it apart from what
    stands after it: the result is the unescaped first part, the
    character, and the unescaped second part. *)
Theorem percent_unescape_around (a : text) (cp : N) (b : text)
    (H : (128 <= cp)%N) :
  percent_unescape (a ++ cp :: b)%list
  = (x <- percent_unescape a ;; y <- percent_unescape b ;;
     Ok (x ++ cp :: y)%list).
Proof.
  unfold percent_unescape, unquote_plus. rewrite !unquote_eq_parts.
  unfold replace_plus. rewrite map_app. cbn [map].
  destruct (N.eqb_spec cp 43) as [E|_]; [lia|].
  now apply unquote_parts_split.
Qed.

Lemma percent_unescape_around_witness :
  percent_unescape (text_of "%C3" ++ 233%N :: text_of "%A9+")%list
  = Ok [65533%N; 233%N; 65533%N; 32%N].
Proof.
  exact (percent_unescape_around (text_of "%C3") 233%N (text_of "%A9+")
           ltac:(discriminate)).
Defined.

(** ** The query string builder: further properties *)

Lemma pairs_text_app (a b : list (string * value)) :
  pairs_text (a ++ b) = pairs_text a ++ pairs_text b.
Proof.
  induction a as [|kv a IH]; [reflexivity|].
  cbn [app pairs_text]. now rewrite IH, !append_assoc.
Qed.

(** Two mappings the loop writes the same text for get the same query
    string. *)
Lemma to_query_str_of_pairs (a b : list (string * value)) :
  a <> [] -> b <> [] -> pairs_text a = pairs_text b ->
  to_query_str a = to_query_str b.
Proof.
  intros Ha Hb H.
  destruct a as [|x a]; [congruence|]. destruct b as [|y b]; [congruence|].
  unfold to_query_str. now rewrite !fold_query_step, H.
Qed.

Lemma append_cancel_l (a b c : string) : a ++ b = a ++ c -> b = c.
Proof.
  induction a as [|x a IH]; [auto|].
  cbn [append]. intros H. injection H as H. auto.
Qed.

Lemma append_snoc_inj (a b : string) (c : ascii) :
  a ++ String c "" = b ++ String c "" -> a = b.
Proof.
  intros H. rewrite <- (drop_last_snoc a c), <- (drop_last_snoc b c).
  now rewrite H.
Qed.

(** With its ['&'] put back, a query string is ['?'] and the text of the
    loop. *)
Lemma to_query_str_pairs (l : list (string * value)) :
  l <> [] -> to_query_str l ++ "&" = "?" ++ pairs_text l.
Proof.
  destruct l as [|kv l]; [congruence|]. intros _.
  rewrite to_query_str_cons, pairs_text_join. now rewrite append_assoc.
Qed.

Lemma to_query_str_pairs_inj (a b : list (string * value)) :
  a <> [] -> b <> [] -> to_query_str a = to_query_str b ->
  pairs_text a = pairs_text b.
Proof.
  intros Ha Hb H.
  apply (append_cancel_l "?").
  rewrite <- !to_query_str_pairs by assumption. now rewrite H.
Qed.

Lemma app_cons_not_nil (A : Type) (a : list A) (x : A) (b : list A) :
  (a ++ x :: b)%list <> [].
Proof. destruct a; discriminate. Qed.

(** X15.  A list value is written exactly as the string of its elements
    joined by commas would be, so the two cannot be told apart in the
    result; an empty list is written as an empty value. *)
Theorem to_query_str_list_as_text (pre post : list (string * value))
    (k : string) (l : list scalar) :
  to_query_str (pre ++ (k, PyList l) :: post)
  = to_query_str (pre ++ (k, Scalar (PyStr (join "," (map str l)))) :: post)
  /\ to_query_str (pre ++ (k, PyList []) :: post)
     = to_query_str (pre ++ (k, Scalar (PyStr "")) :: post).
Proof.
  split; apply to_query_str_of_pairs;
    try apply app_cons_not_nil;
    rewrite !pairs_text_app; reflexivity.
Qed.

(** X16.  Nothing is escaped: a value that holds ['&'] and ['='] is written
    as it is, so one item whose value is [v1&k2=v2] gives the same query
    string as the two items [v1] and [k2=v2]. *)
Theorem to_query_str_not_escaped (pre post : list (string * value))
    (k v1 k2 v2 : string) :
  to_query_str
    (pre ++ (k, Scalar (PyStr (v1 ++ "&" ++ k2 ++ "=" ++ v2))) :: post)
  = to_query_str
      (pre ++ (k, Scalar (PyStr v1)) :: (k2, Scalar (PyStr v2)) :: post).
Proof.
  apply to_query_str_of_pairs; try apply app_cons_not_nil.
  rewrite !pairs_text_app. f_equal.
  cbn [pairs_text]. unfold pair_text. cbn [fst snd transform str].
  now rewrite !append_assoc.
Qed.

(** X17.  The query string of two mappings put one after the other is the
    query string of the first, ['&'], and the query string of the second
    without its ['?']. *)
Theorem to_query_str_app (x y : string * value)
    (a b : list (string * value)) :
  exists q,
    to_query_str (y :: b) = "?" ++ q
    /\ to_query_str ((x :: a) ++ y :: b) = to_query_str (x :: a) ++ "&" ++ q.
Proof.
  exists (join "&" (map pair_text (y :: b))).
  split; [apply to_query_str_cons|].
  apply (append_snoc_inj _ _ "&").
  change ((x :: a) ++ y :: b)%list with (x :: (a ++ y :: b))%list.
  rewrite to_query_str_pairs by discriminate.
  change (x :: (a ++ y :: b))%list with ((x :: a) ++ (y :: b))%list.
  rewrite pairs_text_app, (pairs_text_join y b).
  rewrite <- append_assoc, <- to_query_str_pairs by discriminate.
  now rewrite !append_assoc.
Qed.

(** X18.  Inside a list a boolean is written by [str], with a capital:
    the list [[True]] gives [True] where the value [True] gives [true], so
    the two mappings get different query strings. *)
Theorem to_query_str_bool_in_list (pre post : list (string * value))
    (k : string) (b : bool) :
  to_query_str (pre ++ (k, PyList [PyBool b]) :: post)
  <> to_query_str (pre ++ (k, Scalar (PyBool b)) :: post)
  /\ to_query_str [(k, PyList [PyBool b])]
     = "?" ++ k ++ "=" ++ (if b then "True" else "False")
  /\ to_query_str [(k, Scalar (PyBool b))]
     = "?" ++ k ++ "=" ++ (if b then "true" else "false").
Proof.
  split.
  - intros H. apply to_query_str_pairs_inj in H; try apply app_cons_not_nil.
    rewrite !pairs_text_app in H. apply append_cancel_l in H.
    cbn [pairs_text] in H. unfold pair_text in H. cbn [fst snd] in H.
    rewrite !append_assoc in H. apply append_cancel_l in H.
    destruct b; discriminate H.
  - split; rewrite to_query_str_cons; destruct b; reflexivity.
Qed.

(** ** The deprecation marker: further properties *)

(** What [warn_explicit] does to the state, whatever the filters: the
    filters stay, at most the one warning is shown, and it raises only
    when the action found is [error], leaving the state alone. *)
Lemma warn_explicit_effect (message : string) (cat : category)
    (filename : string) (lineno : Z) (st : warn_state) :
  let res := warn_explicit message cat filename lineno st in
  let act := find_action (filters st) (defaultaction st) message cat
               (module_of filename) lineno in
  filters (snd res) = filters st
  /\ defaultaction (snd res) = defaultaction st
  /\ (shown (snd res) = shown st
      \/ shown (snd res)
         = (shown st ++ [mk_shown message cat filename lineno])%list)
  /\ (act = ActError -> res = (Raise (WarningRaised message), st))
  /\ (act <> ActError -> fst res = Ok tt)
  /\ (act = ActIgnore -> res = (Ok tt, st)).
Proof.
  cbv zeta. unfold warn_explicit.
  destruct (find_action _ _ _ _ _ _); cbn [fst snd filters defaultaction shown];
    try (destruct (once_seen _ _));
    cbn [fst snd filters defaultaction shown];
    repeat split; auto; try congruence.
Qed.

(** X19.  Whatever the warning filters are, a call of the wrapper leaves
    the filters as they are and shows at most the one warning; either the
    filters turn the warning into an error, and then the call raises it
    and the wrapped function is not run, or the call returns what the
    function returns and leaves the state the function leaves. *)
Theorem deprecated_any_filters
    (Args Ret World : Type) (instructions : string)
    (func : function Args Ret World) (caller : frame) (args : Args)
    (world : World) (ws : warn_state) :
  let message := deprecation_message func instructions in
  let w := mk_shown message DeprecatedWarning
             (f_code_file caller) (f_lineno caller) in
  let res := wrapped_call (deprecated instructions func) caller args
               (world, ws) in
  let ws' := snd (snd res) in
  filters ws' = filters ws
  /\ defaultaction ws' = defaultaction ws
  /\ (shown ws' = shown ws \/ shown ws' = (shown ws ++ [w])%list)
  /\ ((fst res = Raise (WarningRaised message) /\ snd res = (world, ws)
       /\ find_action (filters ws) (defaultaction ws) message
            DeprecatedWarning (module_of (f_code_file caller))
            (f_lineno caller) = ActError)
      \/ (fst res = fst (call func args world)
          /\ fst (snd res) = snd (call func args world))).
Proof.
  cbv zeta. unfold deprecated, decorator, wrapper. cbn [wrapped_call fst snd].
  pose proof (warn_explicit_effect (deprecation_message func instructions)
                DeprecatedWarning (f_code_file caller) (f_lineno caller) ws)
    as H.
  cbv zeta in H. destruct H as (Hf & Hd & Hs & He & Hn & _).
  destruct (find_action (filters ws) (defaultaction ws)
              (deprecation_message func instructions) DeprecatedWarning
              (module_of (f_code_file caller)) (f_lineno caller)) eqn:Ea.
  1: { rewrite (He eq_refl). cbn [fst snd]. repeat split; auto. }
  all: specialize (Hn ltac:(discriminate));
    destruct (warn_explicit _ _ _ _ ws) as [[u|e] ws1];
    cbn [fst snd] in *; [|discriminate];
    destruct (call func args world) as [r world'];
    cbn [fst snd]; repeat split; auto.
Qed.

(** X20.  Under a filter that turns the warning into an error (as
    [python -W error] does), a deprecated function cannot be called: the
    call raises the warning, the function is not run and nothing
    changes. *)
Theorem deprecated_under_error_filter
    (Args Ret World : Type) (instructions : string)
    (func : function Args Ret World) (caller : frame) (args : Args)
    (world : World) (ws : warn_state)
    (H : find_action (filters ws) (defaultaction ws)
           (deprecation_message func instructions) DeprecatedWarning
           (module_of (f_code_file caller)) (f_lineno caller) = ActError) :
  wrapped_call (deprecated instructions func) caller args (world, ws)
  = (Raise (WarningRaised (deprecation_message func instructions)),
     (world, ws)).
Proof.
  unfold deprecated, decorator, wrapper. cbn [wrapped_call fst snd].
  unfold warn_explicit. rewrite H. reflexivity.
Qed.

Lemma deprecated_under_error_filter_witness :
  wrapped_call
    (deprecated "Use bar."
       (mk_function "foo" (fun (n : Z) (w : unit) => (Ok (n + 1), w))))
    (mk_frame "app.py" 7) 1
    (tt, mk_warn_state [mk_filter ActError None Warning None 0] ActDefault [] [])
  = (Raise (WarningRaised "Call to deprecated function foo(...). Use bar."),
     (tt, mk_warn_state [mk_filter ActError None Warning None 0] ActDefault
            [] [])).
Proof.
  exact (deprecated_under_error_filter Z Z unit "Use bar."
           (mk_function "foo" (fun (n : Z) (w : unit) => (Ok (n + 1), w)))
           (mk_frame "app.py" 7) 1 tt
           (mk_warn_state [mk_filter ActError None Warning None 0]
              ActDefault [] [])
           eq_refl).
Defined.

Lemma warn_once_first (message : string) (cat : category)
    (filename : string) (lineno : Z) (fs : list filter) (dflt : action)
    (reg : list (string * category)) (log : list shown_warning) :
  find_action fs dflt message cat (module_of filename) lineno = ActOnce ->
  once_seen (message, cat) reg = false ->
  warn_explicit message cat filename lineno (mk_warn_state fs dflt reg log)
  = (Ok tt,
     mk_warn_state fs dflt ((message, cat) :: reg)
       (log ++ [mk_shown message cat filename lineno])).
Proof.
  intros Ha Hs. unfold warn_explicit.
  cbn [filters defaultaction onceregistry shown]. now rewrite Ha, Hs.
Qed.

Lemma warn_once_again (message : string) (cat : category)
    (filename : string) (lineno : Z) (st : warn_state) :
  find_action (filters st) (defaultaction st) message cat
    (module_of filename) lineno = ActOnce ->
  once_seen (message, cat) (onceregistry st) = true ->
  warn_explicit message cat filename lineno st = (Ok tt, st).
Proof. intros Ha Hs. unfold warn_explicit. now rewrite Ha, Hs. Qed.

Lemma once_seen_head (message : string) (cat : category)
    (reg : list (string * category)) :
  once_seen (message, cat) ((message, cat) :: reg) = true.
Proof.
  unfold once_seen. cbn [existsb fst snd]. rewrite String.eqb_refl.
  destruct cat; reflexivity.
Qed.

(** X21.  Under a filter with the action [once], the warning of a
    deprecated function is shown at its first call only: a second call,
    from wherever, shows nothing more and still returns what the function
    returns. *)
Theorem deprecated_under_once_filter
    (Args Ret World : Type) (instructions : string)
    (func : function Args Ret World) (caller1 caller2 : frame)
    (args1 args2 : Args) (world : World) (fs : list filter) (dflt : action)
    (reg : list (string * category)) (log : list shown_warning)
    (H1 : find_action fs dflt (deprecation_message func instructions)
            DeprecatedWarning (module_of (f_code_file caller1))
            (f_lineno caller1) = ActOnce)
    (H2 : find_action fs dflt (deprecation_message func instructions)
            DeprecatedWarning (module_of (f_code_file caller2))
            (f_lineno caller2) = ActOnce)
    (Hnew : once_seen (deprecation_message func instructions,
                       DeprecatedWarning) reg = false) :
  let w := mk_shown (deprecation_message func instructions) DeprecatedWarning
             (f_code_file caller1) (f_lineno caller1) in
  let first := wrapped_call (deprecated instructions func) caller1 args1
                 (world, mk_warn_state fs dflt reg log) in
  let second := wrapped_call (deprecated instructions func) caller2 args2
                  (snd first) in
  shown (snd (snd first)) = (log ++ [w])%list
  /\ shown (snd (snd second)) = (log ++ [w])%list
  /\ fst second = fst (call func args2 (fst (snd first))).
Proof.
  cbv zeta. unfold deprecated, decorator, wrapper. cbn [wrapped_call fst snd].
  rewrite (warn_once_first _ _ _ _ fs dflt reg log H1 Hnew).
  destruct (call func args1 world) as [r1 world1]. cbn [fst snd].
  rewrite warn_once_again;
    [| exact H2 | apply once_seen_head].
  destruct (call func args2 world1) as [r2 world2]. cbn [fst snd shown].
  auto.
Qed.

Lemma deprecated_under_once_filter_witness :
  let func := mk_function "foo" (fun (n : Z) (w : unit) => (Ok (n + 1), w)) in
  let st := mk_warn_state [mk_filter ActOnce None Warning None 0]
              ActDefault [] [] in
  let w := mk_shown "Call to deprecated function foo(...). Use bar."
             DeprecatedWarning "app.py" 7 in
  let first := wrapped_call (deprecated "Use bar." func)
                 (mk_frame "app.py" 7) 1 (tt, st) in
  let second := wrapped_call (deprecated "Use bar." func)
                  (mk_frame "lib.py" 9) 2 (snd first) in
  shown (snd (snd first)) = [w]
  /\ shown (snd (snd second)) = [w]
  /\ fst second = Ok 3.
Proof.
  exact (deprecated_under_once_filter Z Z unit "Use bar."
           (mk_function "foo" (fun (n : Z) (w : unit) => (Ok (n + 1), w)))
           (mk_frame "app.py" 7) (mk_frame "lib.py" 9) 1 2 tt
           [mk_filter ActOnce None Warning None 0] ActDefault [] []
           eq_refl eq_refl eq_refl).
Defined.

Lemma issubclass_deprecated (c : category) :
  issubclass DeprecatedWarning c = true
  <-> c = DeprecatedWarning \/ c = UserWarning \/ c = Warning.
Proof.
  destruct c; cbn; split; intros H;
    first [discriminate H | tauto
          | destruct H as [H|[H|H]]; discriminate H | reflexivity].
Qed.

(** X23.  The wrapper's warning obeys the filters for [UserWarning] and
    [Warning], not those for the built-in [DeprecationWarning]: a filter
    for any other category than [DeprecatedWarning], [UserWarning] or
    [Warning] is passed over, and where the action found is [ignore] (as
    after [simplefilter('ignore', UserWarning)]) the call shows nothing
    and returns what the function returns. *)
Theorem deprecated_obeys_user_warning_filters
    (Args Ret World : Type) (instructions : string)
    (func : function Args Ret World) (caller : frame) (args : Args)
    (world : World) (ws : warn_state)
    (H : find_action (filters ws) (defaultaction ws)
           (deprecation_message func instructions) DeprecatedWarning
           (module_of (f_code_file caller)) (f_lineno caller) = ActIgnore) :
  wrapped_call (deprecated instructions func) caller args (world, ws)
  = (fst (call func args world), (snd (call func args world), ws))
  /\ (forall (item : filter) fs dflt text module lineno,
        flt_category item <> DeprecatedWarning ->
        flt_category item <> UserWarning ->
        flt_category item <> Warning ->
        find_action (item :: fs) dflt text DeprecatedWarning module lineno
        = find_action fs dflt text DeprecatedWarning module lineno)
  /\ (forall fs dflt text module lineno,
        find_action (mk_filter ActIgnore None UserWarning None 0 :: fs) dflt
          text DeprecatedWarning module lineno = ActIgnore).
Proof.
  split; [|split].
  - unfold deprecated, decorator, wrapper. cbn [wrapped_call fst snd].
    unfold warn_explicit. rewrite H.
    destruct (call func args world) as [r world']. reflexivity.
  - intros item fs dflt text module lineno N1 N2 N3. cbn [find_action].
    destruct (issubclass DeprecatedWarning (flt_category item)) eqn:E.
    + apply issubclass_deprecated in E. tauto.
    + now rewrite andb_false_r.
  - reflexivity.
Qed.

Lemma deprecated_obeys_user_warning_filters_witness :
  wrapped_call
    (deprecated "Use bar."
       (mk_function "foo" (fun (n : Z) (w : unit) => (Ok (n + 1), w))))
    (mk_frame "app.py" 7) 1
    (tt, mk_warn_state [mk_filter ActIgnore None UserWarning None 0]
           ActDefault [] [])
  = (Ok 2, (tt, mk_warn_state [mk_filter ActIgnore None UserWarning None 0]
                  ActDefault [] [])).
Proof.
  exact (proj1 (deprecated_obeys_user_warning_filters Z Z unit "Use bar."
           (mk_function "foo" (fun (n : Z) (w : unit) => (Ok (n + 1), w)))
           (mk_frame "app.py" 7) 1 tt
           (mk_warn_state [mk_filter ActIgnore None UserWarning None 0]
              ActDefault [] [])
           eq_refl)).
Defined.

(** ** Escaping a query string *)








